(** * AES-128 single-block encryption ([Block Ciphers/aes.py])

    A shallow embedding of the Python module: the two constant tables, the
    GF(2^8) helpers, the four state transformations, the key schedule and the
    cipher driver, followed by the properties the specification states about
    them.

    Python integers are unbounded, so they are modelled as [Z]; a [bytes]
    object and a [list] of ints are both [list Z], and the [bytes(...)]
    constructor is the place where the 0..255 range is enforced.  Exceptions
    are values of an error monad. *)

From Stdlib Require Import String ZArith List Lia Bool.
From Stdlib Require Import Btauto.
Import ListNotations.
Local Open Scope Z_scope.

(** ** The fragment of Python the module relies on *)

Module Py.

Inductive exn : Type :=
| ValueError (msg : string)
| IndexError.

Inductive result (A : Type) : Type :=
| Ok (a : A)
| Raise (e : exn).
Arguments Ok {A} a.
Arguments Raise {A} e.

Definition bind {A B} (m : result A) (k : A -> result B) : result B :=
  match m with
  | Ok a => k a
  | Raise e => Raise e
  end.

(** [len(l)] *)
Definition len {A} (l : list A) : Z := Z.of_nat (List.length l).

(** [l[i]]: a negative index counts from the end, anything outside
    [-len .. len-1] raises [IndexError]. *)
Definition getitem {A} (l : list A) (i : Z) : result A :=
  let j := if i <? 0 then i + len l else i in
  if (j <? 0) || (len l <=? j) then Raise IndexError
  else match nth_error l (Z.to_nat j) with
       | Some x => Ok x
       | None => Raise IndexError
       end.

(** The list [l] with position [n] replaced by [x]. *)
Fixpoint update {A} (l : list A) (n : nat) (x : A) : list A :=
  match l, n with
  | [], _ => []
  | _ :: t, O => x :: t
  | h :: t, S n' => h :: update t n' x
  end.

(** [l[i] = x] on a list; same index rule as [getitem]. *)
Definition setitem {A} (l : list A) (i : Z) (x : A) : result (list A) :=
  let j := if i <? 0 then i + len l else i in
  if (j <? 0) || (len l <=? j) then Raise IndexError
  else Ok (update l (Z.to_nat j) x).

(** Slice bounds are clamped to [0 .. len], never raise. *)
Definition clamp (n i : Z) : Z :=
  if i <? 0 then Z.max (i + n) 0 else Z.min i n.

(** [l[lo:hi]]; [None] is an omitted bound. *)
Definition slice {A} (l : list A) (lo hi : option Z) : list A :=
  let n := len l in
  let a := match lo with Some i => clamp n i | None => 0 end in
  let b := match hi with Some i => clamp n i | None => n end in
  firstn (Z.to_nat (b - a)) (skipn (Z.to_nat a) l).

(** [range(a, b, step)] for a positive step, and [range(a, b)]. *)
Definition range3 (a b step : Z) : list Z :=
  map (fun k => a + step * Z.of_nat k)
      (seq 0 (Z.to_nat ((b - a + step - 1) / step))).

Definition range (a b : Z) : list Z := range3 a b 1.

(** A list comprehension whose element expression may raise. *)
Fixpoint mapM {A B} (f : A -> result B) (l : list A) : result (list B) :=
  match l with
  | [] => Ok []
  | x :: t =>
      match f x with
      | Ok y => match mapM f t with
                | Ok ys => Ok (y :: ys)
                | Raise e => Raise e
                end
      | Raise e => Raise e
      end
  end.

(** A [for] loop that updates one variable. *)
Fixpoint foldM {A S} (body : S -> A -> result S) (l : list A) (s : S)
  : result S :=
  match l with
  | [] => Ok s
  | x :: t =>
      match body s x with
      | Ok s' => foldM body t s'
      | Raise e => Raise e
      end
  end.

Definition byte_ok (b : Z) : bool := (0 <=? b) && (b <? 256).

(** [bytes(l)] on a list of ints. *)
Definition bytes (l : list Z) : result (list Z) :=
  if forallb byte_ok l then Ok l
  else Raise (ValueError "bytes must be in range(0, 256)").

End Py.
Import Py.

Declare Scope py_scope.
Delimit Scope py_scope with py.
Notation "x <- m ;; k" := (bind m (fun x => k))
  (at level 61, m at next level, right associativity) : py_scope.
Local Open Scope py_scope.

(** ** Constant tables *)

Definition S_BOX : list Z := [
  0x63; 0x7c; 0x77; 0x7b; 0xf2; 0x6b; 0x6f; 0xc5; 0x30; 0x01; 0x67; 0x2b; 0xfe; 0xd7; 0xab; 0x76;
  0xca; 0x82; 0xc9; 0x7d; 0xfa; 0x59; 0x47; 0xf0; 0xad; 0xd4; 0xa2; 0xaf; 0x9c; 0xa4; 0x72; 0xc0;
  0xb7; 0xfd; 0x93; 0x26; 0x36; 0x3f; 0xf7; 0xcc; 0x34; 0xa5; 0xe5; 0xf1; 0x71; 0xd8; 0x31; 0x15;
  0x04; 0xc7; 0x23; 0xc3; 0x18; 0x96; 0x05; 0x9a; 0x07; 0x12; 0x80; 0xe2; 0xeb; 0x27; 0xb2; 0x75;
  0x09; 0x83; 0x2c; 0x1a; 0x1b; 0x6e; 0x5a; 0xa0; 0x52; 0x3b; 0xd6; 0xb3; 0x29; 0xe3; 0x2f; 0x84;
  0x53; 0xd1; 0x00; 0xed; 0x20; 0xfc; 0xb1; 0x5b; 0x6a; 0xcb; 0xbe; 0x39; 0x4a; 0x4c; 0x58; 0xcf;
  0xd0; 0xef; 0xaa; 0xfb; 0x43; 0x4d; 0x33; 0x85; 0x45; 0xf9; 0x02; 0x7f; 0x50; 0x3c; 0x9f; 0xa8;
  0x51; 0xa3; 0x40; 0x8f; 0x92; 0x9d; 0x38; 0xf5; 0xbc; 0xb6; 0xda; 0x21; 0x10; 0xff; 0xf3; 0xd2;
  0xcd; 0x0c; 0x13; 0xec; 0x5f; 0x97; 0x44; 0x17; 0xc4; 0xa7; 0x7e; 0x3d; 0x64; 0x5d; 0x19; 0x73;
  0x60; 0x81; 0x4f; 0xdc; 0x22; 0x2a; 0x90; 0x88; 0x46; 0xee; 0xb8; 0x14; 0xde; 0x5e; 0x0b; 0xdb;
  0xe0; 0x32; 0x3a; 0x0a; 0x49; 0x06; 0x24; 0x5c; 0xc2; 0xd3; 0xac; 0x62; 0x91; 0x95; 0xe4; 0x79;
  0xe7; 0xc8; 0x37; 0x6d; 0x8d; 0xd5; 0x4e; 0xa9; 0x6c; 0x56; 0xf4; 0xea; 0x65; 0x7a; 0xae; 0x08;
  0xba; 0x78; 0x25; 0x2e; 0x1c; 0xa6; 0xb4; 0xc6; 0xe8; 0xdd; 0x74; 0x1f; 0x4b; 0xbd; 0x8b; 0x8a;
  0x70; 0x3e; 0xb5; 0x66; 0x48; 0x03; 0xf6; 0x0e; 0x61; 0x35; 0x57; 0xb9; 0x86; 0xc1; 0x1d; 0x9e;
  0xe1; 0xf8; 0x98; 0x11; 0x69; 0xd9; 0x8e; 0x94; 0x9b; 0x1e; 0x87; 0xe9; 0xce; 0x55; 0x28; 0xdf;
  0x8c; 0xa1; 0x89; 0x0d; 0xbf; 0xe6; 0x42; 0x68; 0x41; 0x99; 0x2d; 0x0f; 0xb0; 0x54; 0xbb; 0x16
].

Definition RCON : list Z := [
  0x01; 0x02; 0x04; 0x08; 0x10; 0x20; 0x40; 0x80; 0x1B; 0x36
].

(** ** The class [AES] *)

Module AES.

(** An instance: the two attributes [__init__] sets. *)
Record t : Type := Build {
  key : list Z;
  round_keys : list (list Z)
}.

Definition add_round_key (state round_key : list Z) : result (list Z) :=
  bytes (map (fun '(b, k) => Z.lxor b k) (combine state round_key)).

Definition byte_substitution (state : list Z) : result (list Z) :=
  l <- mapM (fun b => getitem S_BOX b) state ;;
  bytes l.

Definition shift_rows (state : list Z) : result (list Z) :=
  matrix <- mapM (fun r => mapM (fun c => getitem state (r + 4 * c))
                                (range 0 4)) (range 0 4) ;;
  matrix <- foldM (fun matrix r =>
                     row1 <- getitem matrix r ;;
                     row2 <- getitem matrix r ;;
                     setitem matrix r
                       (slice row1 (Some r) None ++ slice row2 None (Some r)))
                  (range 1 4) matrix ;;
  l <- mapM (fun c => mapM (fun r => row <- getitem matrix r ;;
                                     getitem row c)
                           (range 0 4)) (range 0 4) ;;
  bytes (concat l).

Definition mul_by_02 (b : Z) : Z :=
  if negb (Z.land b 0x80 =? 0)
  then Z.land (Z.lxor (Z.shiftl b 1) 0x1B) 0xFF
  else Z.land (Z.shiftl b 1) 0xFF.

Definition mul_by_03 (b : Z) : Z := Z.lxor (mul_by_02 b) b.

Definition mul_by_01 (b : Z) : Z := b.

Definition mix_single_column (column : list Z) : result (list Z) :=
  let a := column in
  a0 <- getitem a 0 ;; a1 <- getitem a 1 ;;
  a2 <- getitem a 2 ;; a3 <- getitem a 3 ;;
  let b0 := Z.lxor (Z.lxor (Z.lxor (mul_by_02 a0) (mul_by_03 a1)) a2) a3 in
  a0 <- getitem a 0 ;; a1 <- getitem a 1 ;;
  a2 <- getitem a 2 ;; a3 <- getitem a 3 ;;
  let b1 := Z.lxor (Z.lxor (Z.lxor a0 (mul_by_02 a1)) (mul_by_03 a2)) a3 in
  a0 <- getitem a 0 ;; a1 <- getitem a 1 ;;
  a2 <- getitem a 2 ;; a3 <- getitem a 3 ;;
  let b2 := Z.lxor (Z.lxor (Z.lxor a0 a1) (mul_by_02 a2)) (mul_by_03 a3) in
  a0 <- getitem a 0 ;; a1 <- getitem a 1 ;;
  a2 <- getitem a 2 ;; a3 <- getitem a 3 ;;
  let b3 := Z.lxor (Z.lxor (Z.lxor (mul_by_03 a0) a1) a2) (mul_by_02 a3) in
  Ok [b0; b1; b2; b3].

Definition mix_column (state : list Z) : result (list Z) :=
  matrix <- mapM (fun c => mapM (fun r => getitem state (r + 4 * c))
                                (range 0 4)) (range 0 4) ;;
  mixed <- mapM mix_single_column matrix ;;
  l <- mapM (fun c => mapM (fun r => col <- getitem mixed c ;;
                                     getitem col r)
                           (range 0 4)) (range 0 4) ;;
  bytes (concat l).

(** One iteration of the [while] loop of [key_expansion]: the new list of
    columns (the loop counter is advanced by the caller). *)
Definition key_expansion_step (key_columns : list (list Z)) (i : Z)
  : result (list (list Z)) :=
  word <- getitem key_columns (-1) ;;
  word <- (if i mod 4 =? 0 then
             let word := slice word (Some 1) None ++ slice word None (Some 1) in
             word <- mapM (fun b => getitem S_BOX b) word ;;
             w0 <- getitem word 0 ;;
             rc <- getitem RCON (i / 4 - 1) ;;
             setitem word 0 (Z.lxor w0 rc)
           else Ok word) ;;
  prev <- getitem key_columns (i - 4) ;;
  let word := map (fun '(a, b) => Z.lxor a b) (combine word prev) in
  Ok (key_columns ++ [word]).

(** [while len(key_columns) < 44: ...].  [fuel] bounds the number of
    iterations; [None] is a run that the bound cut short. *)
Fixpoint key_expansion_loop (fuel : nat) (key_columns : list (list Z)) (i : Z)
  : option (result (list (list Z))) :=
  if len key_columns <? 44 then
    match fuel with
    | O => None
    | S fuel' =>
        match key_expansion_step key_columns i with
        | Ok key_columns' => key_expansion_loop fuel' key_columns' (i + 1)
        | Raise e => Some (Raise e)
        end
    end
  else Some (Ok key_columns).

Definition key_expansion (fuel : nat) (key : list Z)
  : option (result (list (list Z))) :=
  let key_columns :=
    map (fun i => slice key (Some i) (Some (i + 4))) (range3 0 16 4) in
  match key_expansion_loop fuel key_columns 4 with
  | None => None
  | Some r =>
      Some (key_columns <- r ;;
            let round_keys :=
              map (fun i => concat (slice key_columns (Some i) (Some (i + 4))))
                  (range3 0 44 4) in
            mapM bytes round_keys)
  end.

Definition invalid_key_size : exn :=
  ValueError "Invalid key size: AES-128 requires a 16-byte (128-bit) key.".

Definition __init__ (fuel : nat) (key : list Z) : option (result t) :=
  if negb (len key =? 16) then Some (Raise invalid_key_size)
  else match key_expansion fuel key with
       | None => None
       | Some r => Some (round_keys <- r ;; Ok (Build key round_keys))
       end.

Definition round (state round_key : list Z) : result (list Z) :=
  state <- byte_substitution state ;;
  state <- shift_rows state ;;
  state <- mix_column state ;;
  state <- add_round_key state round_key ;;
  Ok state.

Definition final_round (state round_key : list Z) : result (list Z) :=
  state <- byte_substitution state ;;
  state <- shift_rows state ;;
  state <- add_round_key state round_key ;;
  Ok state.

Definition partially_encrypt (self : t) (plaintext : list Z) (num_rounds : Z)
  : result (list Z) :=
  rk <- getitem (round_keys self) 0 ;;
  state <- add_round_key plaintext rk ;;
  state <- foldM (fun state i =>
                    rk <- getitem (round_keys self) i ;;
                    round state rk)
                 (range 1 num_rounds) state ;;
  state <- (if num_rounds =? 10 then
              rk <- getitem (round_keys self) 10 ;;
              final_round state rk
            else Ok state) ;;
  Ok state.

Definition encrypt (self : t) (plaintext : list Z) : result (list Z) :=
  rk <- getitem (round_keys self) 0 ;;
  state <- add_round_key plaintext rk ;;
  state <- foldM (fun state i =>
                    rk <- getitem (round_keys self) i ;;
                    round state rk)
                 (range 1 10) state ;;
  rk <- getitem (round_keys self) 10 ;;
  state <- final_round state rk ;;
  Ok state.

End AES.

(** ** Instrumented driver

    The same control flow as [AES.partially_encrypt], with a log of the round
    functions it calls, in call order. *)

Module Instrumented.

Inductive event : Type :=
| MainRound (i : Z)     (* [self.round(state, self.round_keys[i])] *)
| FinalRound (i : Z).   (* [self.final_round(state, self.round_keys[i])] *)

Definition partially_encrypt (self : AES.t) (plaintext : list Z)
           (num_rounds : Z) : result (list Z * list event) :=
  rk <- getitem (AES.round_keys self) 0 ;;
  state <- AES.add_round_key plaintext rk ;;
  st <- foldM (fun (st : list Z * list event) i =>
                 rk <- getitem (AES.round_keys self) i ;;
                 state <- AES.round (fst st) rk ;;
                 Ok (state, snd st ++ [MainRound i]))
              (range 1 num_rounds) (state, []) ;;
  st <- (if num_rounds =? 10 then
           rk <- getitem (AES.round_keys self) 10 ;;
           state <- AES.final_round (fst st) rk ;;
           Ok (state, snd st ++ [FinalRound 10])
         else Ok st) ;;
  Ok st.

End Instrumented.

(** ** GF(2^8) as the specification describes it

    Polynomials over GF(2) are integers whose bit [i] is the coefficient of
    [x^i]; addition is XOR, multiplication is carry-less, and the field
    product is the remainder modulo [x^8 + x^4 + x^3 + x + 1]. *)

Module GF256_spec.

Definition degree (p : Z) : Z := Z.log2 p.

(** Sum of [a * x^i] over the set bits [i < n] of [b]. *)
Fixpoint poly_mul_upto (n : nat) (a b : Z) : Z :=
  match n with
  | O => 0
  | S n' =>
      Z.lxor (poly_mul_upto n' a b)
             (if Z.testbit b (Z.of_nat n') then Z.shiftl a (Z.of_nat n')
              else 0)
  end.

Definition poly_mul (a b : Z) : Z :=
  poly_mul_upto (Z.to_nat (degree b) + 1) a b.

(** Long division: cancel the leading term while the degree allows. *)
Fixpoint poly_mod_steps (n : nat) (p m : Z) : Z :=
  match n with
  | O => p
  | S n' =>
      if (p =? 0) || (degree p <? degree m) then p
      else poly_mod_steps n' (Z.lxor p (Z.shiftl m (degree p - degree m))) m
  end.

Definition poly_mod (p m : Z) : Z :=
  poly_mod_steps (Z.to_nat (degree p) + 1) p m.

(** [x^8 + x^4 + x^3 + x + 1] *)
Definition modulus : Z := 0x11B.

Definition mul (a b : Z) : Z := poly_mod (poly_mul a b) modulus.

(** The polynomial [x]. *)
Definition x : Z := 2.

(** The MixColumns matrix applied to the column [a0, a1, a2, a3]. *)
Definition mix (a0 a1 a2 a3 : Z) : list Z :=
  [Z.lxor (Z.lxor (Z.lxor (mul 2 a0) (mul 3 a1)) a2) a3;
   Z.lxor (Z.lxor (Z.lxor a0 (mul 2 a1)) (mul 3 a2)) a3;
   Z.lxor (Z.lxor (Z.lxor a0 a1) (mul 2 a2)) (mul 3 a3);
   Z.lxor (Z.lxor (Z.lxor (mul 3 a0) a1) a2) (mul 2 a3)].

End GF256_spec.

(** ** Well-formed values *)

Definition is_byte (b : Z) : Prop := 0 <= b < 256.
Definition is_bytes (l : list Z) : Prop := Forall is_byte l.
Definition is_block (l : list Z) : Prop := length l = 16%nat /\ is_bytes l.
Definition is_word (l : list Z) : Prop := length l = 4%nat /\ is_bytes l.

(** What [AES.mix_single_column] computes, as a function of the four bytes. *)
Definition mixed (a0 a1 a2 a3 : Z) : list Z :=
  [Z.lxor (Z.lxor (Z.lxor (AES.mul_by_02 a0) (AES.mul_by_03 a1)) a2) a3;
   Z.lxor (Z.lxor (Z.lxor a0 (AES.mul_by_02 a1)) (AES.mul_by_03 a2)) a3;
   Z.lxor (Z.lxor (Z.lxor a0 a1) (AES.mul_by_02 a2)) (AES.mul_by_03 a3);
   Z.lxor (Z.lxor (Z.lxor (AES.mul_by_03 a0) a1) a2) (AES.mul_by_02 a3)].

(** The S-box as a function on byte values. *)
Definition sbox (b : Z) : Z := nth (Z.to_nat b) S_BOX 0.

Definition xor_bytes (s k : list Z) : list Z :=
  map (fun '(b, k) => Z.lxor b k) (combine s k).

(** The FIPS-197 Appendix B/C.1 vectors. *)
Definition fips_key : list Z :=
  [0x00; 0x01; 0x02; 0x03; 0x04; 0x05; 0x06; 0x07;
   0x08; 0x09; 0x0a; 0x0b; 0x0c; 0x0d; 0x0e; 0x0f].
Definition fips_plaintext : list Z :=
  [0x00; 0x11; 0x22; 0x33; 0x44; 0x55; 0x66; 0x77;
   0x88; 0x99; 0xaa; 0xbb; 0xcc; 0xdd; 0xee; 0xff].
Definition fips_ciphertext : list Z :=
  [0x69; 0xc4; 0xe0; 0xd8; 0x6a; 0x7b; 0x04; 0x30;
   0xd8; 0xcd; 0xb7; 0x80; 0x70; 0xb4; 0xc5; 0x5a].

(** Enough iterations for the loop of [key_expansion] on four columns. *)
Definition enough_fuel : nat := 40.

(** The instance [AES(fips_key)]. *)
Definition fips_cipher : AES.t :=
  Eval vm_compute in
    match AES.__init__ enough_fuel fips_key with
    | Some (Ok self) => self
    | _ => AES.Build [] []
    end.

(** Column [c] of a state, read the way [mix_column] reads it:
    [[state[r + 4*c] for r in range(4)]]. *)
Definition column (state : list Z) (c : Z) : result (list Z) :=
  mapM (fun r => getitem state (r + 4 * c)) (range 0 4).

(** Decidable form of [is_block], for concrete blocks. *)
Definition blockb (l : list Z) : bool :=
  (length l =? 16)%nat && forallb byte_ok l.

(** ** Inverse maps

    The module has no decryption.  These inverses only serve to show that
    the forward transformations lose no information. *)

Module Inverse.

(** Position of the first occurrence of [v] in [l]. *)
Fixpoint index_of (v : Z) (l : list Z) : Z :=
  match l with
  | [] => 0
  | x :: t => if x =? v then 0 else 1 + index_of v t
  end.

Definition sbox (v : Z) : Z := index_of v S_BOX.

(** The inverse MixColumns matrix, over the field of [GF256_spec]. *)
Definition mix (b0 b1 b2 b3 : Z) : list Z :=
  let m := GF256_spec.mul in
  [Z.lxor (Z.lxor (Z.lxor (m 14 b0) (m 11 b1)) (m 13 b2)) (m 9 b3);
   Z.lxor (Z.lxor (Z.lxor (m 9 b0) (m 14 b1)) (m 11 b2)) (m 13 b3);
   Z.lxor (Z.lxor (Z.lxor (m 13 b0) (m 9 b1)) (m 14 b2)) (m 11 b3);
   Z.lxor (Z.lxor (Z.lxor (m 11 b0) (m 13 b1)) (m 9 b2)) (m 14 b3)].

Definition mix_single_column (column : list Z) : list Z :=
  match column with
  | [b0; b1; b2; b3] => mix b0 b1 b2 b3
  | _ => []
  end.

End Inverse.

(** ** The key schedule as a recurrence *)

(** The word that one iteration of the loop of [key_expansion] appends at
    position [i], from the word before it and the word four places back. *)
Definition schedule_word (prev back : list Z) (i : Z) : list Z :=
  match prev with
  | [a; b; c; d] =>
      xor_bytes
        (if i mod 4 =? 0
         then [Z.lxor (sbox b) (nth (Z.to_nat (i / 4 - 1)) RCON 0);
               sbox c; sbox d; sbox a]
         else prev)
        back
  | _ => []
  end.

(** Round key [k + 1] from round key [k]. *)
Definition next_round_key (rk : list Z) (k : Z) : list Z :=
  let w0 := firstn 4 rk in
  let w1 := firstn 4 (skipn 4 rk) in
  let w2 := firstn 4 (skipn 8 rk) in
  let w3 := firstn 4 (skipn 12 rk) in
  let w4 := schedule_word w3 w0 (4 * k + 4) in
  let w5 := schedule_word w4 w1 (4 * k + 5) in
  let w6 := schedule_word w5 w2 (4 * k + 6) in
  let w7 := schedule_word w6 w3 (4 * k + 7) in
  w4 ++ w5 ++ w6 ++ w7.

(** The columns of [kc] from position 4 on obey the recurrence. *)
Definition scheduled (kc : list (list Z)) : Prop :=
  forall j, 4 <= j < len kc ->
    nth (Z.to_nat j) kc []
    = schedule_word (nth (Z.to_nat (j - 1)) kc [])
                    (nth (Z.to_nat (j - 4)) kc []) j.

(** ** Functions of a byte that are linear over XOR *)

Definition bit_term (b i c : Z) : Z := if Z.testbit b i then c else 0.

(** The XOR of [f (2^i)] over the set bits [i] of the byte [b]. *)
Definition byte_linear (f : Z -> Z) (b : Z) : Z :=
  fold_right (fun i acc => Z.lxor (bit_term b i (f (2 ^ i))) acc) 0
             [0; 1; 2; 3; 4; 5; 6; 7].

(** ** Facts about the Python fragment *)

(** Turn a list of known length into its elements. *)
Ltac explode l H :=
  repeat (destruct l as [|? l]; [discriminate H|]);
  destruct l; [clear H | discriminate H].

Ltac solve_bytes :=
  unfold is_bytes;
  repeat (apply Forall_cons; [assumption|]); apply Forall_nil.

Ltac invert_bytes :=
  repeat match goal with
         | H : is_bytes (_ :: _) |- _ => unfold is_bytes in H
         | H : Forall is_byte (_ :: _) |- _ =>
             let Hb := fresh "Hb" in
             apply Forall_cons_iff in H; destruct H as [Hb H]
         | H : is_bytes [] |- _ => clear H
         | H : Forall is_byte [] |- _ => clear H
         end.

Section PyFacts.

Lemma bind_ok {A B} (m : result A) (k : A -> result B) (a : A) :
  m = Ok a -> bind m k = k a.
Proof. intros ->. reflexivity. Qed.

Lemma byte_ok_iff (b : Z) : byte_ok b = true <-> is_byte b.
Proof. unfold byte_ok, is_byte. rewrite andb_true_iff. lia. Qed.

Lemma bytes_ok (l : list Z) : is_bytes l -> bytes l = Ok l.
Proof.
  intros H. unfold bytes.
  replace (forallb byte_ok l) with true; [reflexivity|].
  symmetry. apply forallb_forall. intros b Hb.
  apply byte_ok_iff. unfold is_bytes in H. rewrite Forall_forall in H. auto.
Qed.

Lemma bytes_inv (l l' : list Z) : bytes l = Ok l' -> l' = l /\ is_bytes l.
Proof.
  unfold bytes. destruct (forallb byte_ok l) eqn:E; [|discriminate].
  intros [= <-]. split; [reflexivity|].
  apply Forall_forall. intros b Hb. apply byte_ok_iff.
  rewrite forallb_forall in E. auto.
Qed.

Lemma forallb_is_bytes (l : list Z) : forallb byte_ok l = true -> is_bytes l.
Proof.
  intros H. apply Forall_forall. intros b Hb. apply byte_ok_iff.
  rewrite forallb_forall in H. auto.
Qed.

Lemma blockb_ok (l : list Z) : blockb l = true -> is_block l.
Proof.
  unfold blockb. rewrite andb_true_iff, Nat.eqb_eq.
  intros [L B]. split; [exact L | apply forallb_is_bytes, B].
Qed.

Lemma range_0_256 : range 0 256 = map Z.of_nat (seq 0 256).
Proof. reflexivity. Qed.

(** A boolean property checked on [range(256)] holds of every byte. *)
Lemma forall_byte (P : Z -> bool) :
  forallb P (range 0 256) = true -> forall b, is_byte b -> P b = true.
Proof.
  intros H b Hb. rewrite forallb_forall in H. apply H.
  rewrite range_0_256. apply in_map_iff. exists (Z.to_nat b).
  split; [unfold is_byte in Hb; lia|].
  apply in_seq. unfold is_byte in Hb. lia.
Qed.

Lemma lxor_byte (a b : Z) : is_byte a -> is_byte b -> is_byte (Z.lxor a b).
Proof.
  unfold is_byte. intros Ha Hb.
  assert (H0 : 0 <= Z.lxor a b) by (apply Z.lxor_nonneg; lia).
  split; [assumption|].
  destruct (Z.eq_dec (Z.lxor a b) 0) as [->|Hn]; [lia|].
  change 256 with (2 ^ 8). apply Z.log2_lt_pow2; [lia|].
  assert (La : Z.log2 a < 8).
  { destruct (Z.eq_dec a 0) as [->|]; [reflexivity|].
    apply Z.log2_lt_pow2; lia. }
  assert (Lb : Z.log2 b < 8).
  { destruct (Z.eq_dec b 0) as [->|]; [reflexivity|].
    apply Z.log2_lt_pow2; lia. }
  pose proof (Z.log2_lxor a b). lia.
Qed.

Lemma land_255_byte (a : Z) : is_byte (Z.land a 0xFF).
Proof.
  unfold is_byte. change 0xFF with (Z.ones 8).
  rewrite Z.land_ones by lia. apply Z.mod_pos_bound. reflexivity.
Qed.

Lemma xor_bytes_is_bytes (s k : list Z) :
  is_bytes s -> is_bytes k -> is_bytes (xor_bytes s k).
Proof.
  unfold is_bytes, xor_bytes. intros Hs. revert k.
  induction Hs as [|b s Hb Hs IH]; intros k Hk; [constructor|].
  destruct Hk as [|c k Hc Hk]; [constructor|].
  cbn. constructor; [apply lxor_byte; assumption | apply IH; assumption].
Qed.

Lemma xor_bytes_length (s k : list Z) :
  length (xor_bytes s k) = Nat.min (length s) (length k).
Proof. unfold xor_bytes. rewrite length_map. apply length_combine. Qed.

End PyFacts.

(** ** Facts about the tables and the field helpers *)

Section Tables.

Lemma sbox_lookup (b : Z) : is_byte b -> getitem S_BOX b = Ok (sbox b).
Proof.
  intros Hb.
  pose (P := fun b => match getitem S_BOX b with
                      | Ok v => v =? sbox b
                      | Raise _ => false
                      end).
  assert (H : P b = true) by (apply forall_byte; [vm_compute; reflexivity | exact Hb]).
  unfold P in H. destruct (getitem S_BOX b); [|discriminate].
  f_equal. apply Z.eqb_eq. exact H.
Qed.

Lemma sbox_byte (b : Z) : is_byte b -> is_byte (sbox b).
Proof.
  intros Hb. apply byte_ok_iff.
  apply (forall_byte (fun b => byte_ok (sbox b)));
    [vm_compute; reflexivity | exact Hb].
Qed.

Lemma mul_by_02_byte (b : Z) : is_byte (AES.mul_by_02 b).
Proof.
  unfold AES.mul_by_02.
  destruct (negb (Z.land b 128 =? 0)); apply land_255_byte.
Qed.

Lemma mul_by_03_byte (b : Z) : is_byte b -> is_byte (AES.mul_by_03 b).
Proof.
  intros Hb. unfold AES.mul_by_03.
  apply lxor_byte; [apply mul_by_02_byte | exact Hb].
Qed.

Lemma mul_by_02_gf (b : Z) :
  is_byte b -> AES.mul_by_02 b = GF256_spec.mul 2 b.
Proof.
  intros Hb. apply Z.eqb_eq.
  apply (forall_byte (fun b => AES.mul_by_02 b =? GF256_spec.mul 2 b));
    [vm_compute; reflexivity | exact Hb].
Qed.

Lemma mul_by_03_gf (b : Z) :
  is_byte b -> AES.mul_by_03 b = GF256_spec.mul 3 b.
Proof.
  intros Hb. apply Z.eqb_eq.
  apply (forall_byte (fun b => AES.mul_by_03 b =? GF256_spec.mul 3 b));
    [vm_compute; reflexivity | exact Hb].
Qed.

Lemma mul_by_01_gf (b : Z) :
  is_byte b -> AES.mul_by_01 b = GF256_spec.mul 1 b.
Proof.
  intros Hb. apply Z.eqb_eq.
  apply (forall_byte (fun b => AES.mul_by_01 b =? GF256_spec.mul 1 b));
    [vm_compute; reflexivity | exact Hb].
Qed.

(** The field product of the specification is commutative on bytes, so the
    side on which the constant is written does not matter. *)
Lemma gf_mul_comm (a b : Z) :
  is_byte a -> is_byte b -> GF256_spec.mul a b = GF256_spec.mul b a.
Proof.
  intros Ha Hb. apply Z.eqb_eq.
  apply (forall_byte (fun b => GF256_spec.mul a b =? GF256_spec.mul b a));
    [|exact Hb].
  apply (forall_byte
           (fun a => forallb (fun b => GF256_spec.mul a b =? GF256_spec.mul b a)
                             (range 0 256)));
    [vm_compute; reflexivity | exact Ha].
Qed.

(** FIPS-197, section 4.2: [{57} . {83} = {c1}] and [{57} . {13} = {fe}]. *)
Example gf_mul_fips_1 : GF256_spec.mul 0x57 0x83 = 0xc1.
Proof. reflexivity. Qed.

Example gf_mul_fips_2 : GF256_spec.mul 0x57 0x13 = 0xfe.
Proof. reflexivity. Qed.

End Tables.

(** ** The state transformations on well-formed input *)

Section Transformations.

Lemma add_round_key_ok (s k : list Z) :
  is_bytes s -> is_bytes k -> AES.add_round_key s k = Ok (xor_bytes s k).
Proof.
  intros Hs Hk. unfold AES.add_round_key.
  apply (bytes_ok (xor_bytes s k)). apply xor_bytes_is_bytes; assumption.
Qed.

Lemma mapM_sbox (s : list Z) :
  is_bytes s -> mapM (fun b => getitem S_BOX b) s = Ok (map sbox s).
Proof.
  induction 1 as [|b s Hb Hs IH]; [reflexivity|].
  cbn [mapM map]. rewrite (sbox_lookup b Hb), IH. reflexivity.
Qed.

Lemma map_sbox_is_bytes (s : list Z) : is_bytes s -> is_bytes (map sbox s).
Proof.
  induction 1 as [|b s Hb Hs IH]; cbn; constructor;
    [apply sbox_byte; assumption | exact IH].
Qed.

Lemma byte_substitution_ok (s : list Z) :
  is_bytes s -> AES.byte_substitution s = Ok (map sbox s).
Proof.
  intros Hs. unfold AES.byte_substitution.
  rewrite (mapM_sbox s Hs). cbn [bind].
  apply bytes_ok, map_sbox_is_bytes, Hs.
Qed.

Lemma shift_rows_eq (s0 s1 s2 s3 s4 s5 s6 s7 s8 s9 s10 s11 s12 s13 s14 s15 : Z) :
  AES.shift_rows
    [s0; s1; s2; s3; s4; s5; s6; s7; s8; s9; s10; s11; s12; s13; s14; s15]
  = bytes
    [s0; s5; s10; s15; s4; s9; s14; s3; s8; s13; s2; s7; s12; s1; s6; s11].
Proof. reflexivity. Qed.

Lemma mix_column_eq (s0 s1 s2 s3 s4 s5 s6 s7 s8 s9 s10 s11 s12 s13 s14 s15 : Z) :
  AES.mix_column
    [s0; s1; s2; s3; s4; s5; s6; s7; s8; s9; s10; s11; s12; s13; s14; s15]
  = bytes (mixed s0 s1 s2 s3 ++ mixed s4 s5 s6 s7
           ++ mixed s8 s9 s10 s11 ++ mixed s12 s13 s14 s15).
Proof. reflexivity. Qed.

Lemma mixed_is_bytes (a0 a1 a2 a3 : Z) :
  is_byte a0 -> is_byte a1 -> is_byte a2 -> is_byte a3 ->
  is_bytes (mixed a0 a1 a2 a3).
Proof.
  intros H0 H1 H2 H3. unfold mixed, is_bytes.
  repeat (apply Forall_cons;
          [repeat first [ assumption | apply mul_by_02_byte
                        | apply mul_by_03_byte | apply lxor_byte ]|]).
  apply Forall_nil.
Qed.

Lemma shift_rows_block (s : list Z) :
  is_block s -> exists out, AES.shift_rows s = Ok out /\ is_block out.
Proof.
  intros [Hlen Hs]. explode s Hlen. invert_bytes.
  rewrite shift_rows_eq. eexists. split.
  - apply bytes_ok. solve_bytes.
  - split; [reflexivity | solve_bytes].
Qed.

Lemma mix_column_block (s : list Z) :
  is_block s -> exists out, AES.mix_column s = Ok out /\ is_block out.
Proof.
  intros [Hlen Hs]. explode s Hlen. invert_bytes.
  rewrite mix_column_eq.
  assert (Happ : forall a b c d,
             is_bytes a -> is_bytes b -> is_bytes c -> is_bytes d ->
             is_bytes (a ++ b ++ c ++ d)).
  { intros. unfold is_bytes. repeat (apply Forall_app; split); assumption. }
  eexists. split.
  - apply bytes_ok. apply Happ; apply mixed_is_bytes; assumption.
  - split; [reflexivity | apply Happ; apply mixed_is_bytes; assumption].
Qed.

Lemma byte_substitution_block (s : list Z) :
  is_block s -> exists out, AES.byte_substitution s = Ok out /\ is_block out.
Proof.
  intros [Hlen Hs]. exists (map sbox s). split.
  - apply byte_substitution_ok, Hs.
  - split; [rewrite length_map; exact Hlen | apply map_sbox_is_bytes, Hs].
Qed.

Lemma add_round_key_block (s k : list Z) :
  is_block s -> is_block k ->
  exists out, AES.add_round_key s k = Ok out /\ is_block out.
Proof.
  intros [Ls Hs] [Lk Hk]. exists (xor_bytes s k). split.
  - apply add_round_key_ok; assumption.
  - split; [rewrite xor_bytes_length, Ls, Lk; reflexivity
           | apply xor_bytes_is_bytes; assumption].
Qed.

Lemma round_block (s k : list Z) :
  is_block s -> is_block k ->
  exists out, AES.round s k = Ok out /\ is_block out.
Proof.
  intros Hs Hk. unfold AES.round.
  destruct (byte_substitution_block s Hs) as (s1 & -> & H1). cbn [bind].
  destruct (shift_rows_block s1 H1) as (s2 & -> & H2). cbn [bind].
  destruct (mix_column_block s2 H2) as (s3 & -> & H3). cbn [bind].
  destruct (add_round_key_block s3 k H3 Hk) as (s4 & -> & H4). cbn [bind].
  exists s4. split; [reflexivity | exact H4].
Qed.

Lemma final_round_block (s k : list Z) :
  is_block s -> is_block k ->
  exists out, AES.final_round s k = Ok out /\ is_block out.
Proof.
  intros Hs Hk. unfold AES.final_round.
  destruct (byte_substitution_block s Hs) as (s1 & -> & H1). cbn [bind].
  destruct (shift_rows_block s1 H1) as (s2 & -> & H2). cbn [bind].
  destruct (add_round_key_block s2 k H2 Hk) as (s3 & -> & H3). cbn [bind].
  exists s3. split; [reflexivity | exact H3].
Qed.

End Transformations.

(** ** The key schedule on a well-formed key *)

Ltac solve_byte :=
  repeat first [ assumption | apply mul_by_02_byte | apply sbox_byte
               | apply mul_by_03_byte | apply lxor_byte ].

Section KeySchedule.

Lemma getitem_exists {A} (l : list A) (i : Z) :
  - len l <= i < len l -> exists x, getitem l i = Ok x.
Proof.
  intros Hi. unfold getitem.
  set (j := if i <? 0 then i + len l else i).
  assert (Hj : 0 <= j < len l) by (subst j; destruct (Z.ltb_spec i 0); lia).
  replace ((j <? 0) || (len l <=? j)) with false
    by (symmetry; apply orb_false_iff; split; [apply Z.ltb_ge | apply Z.leb_gt]; lia).
  destruct (nth_error l (Z.to_nat j)) as [x|] eqn:E; [exists x; reflexivity|].
  apply nth_error_None in E. unfold len in Hj. lia.
Qed.

Lemma getitem_In {A} (l : list A) (i : Z) (x : A) :
  getitem l i = Ok x -> In x l.
Proof.
  unfold getitem.
  destruct ((_ <? 0) || (len l <=? _)); [discriminate|].
  destruct (nth_error l _) as [y|] eqn:E; [|discriminate].
  intros [= <-]. eapply nth_error_In, E.
Qed.

Lemma getitem_nonneg {A} (l : list A) (i : Z) (x : A) :
  0 <= i -> nth_error l (Z.to_nat i) = Some x -> getitem l i = Ok x.
Proof.
  intros Hi E. unfold getitem.
  replace (i <? 0) with false by (symmetry; apply Z.ltb_ge; lia).
  assert (Z.to_nat i < length l)%nat by (apply nth_error_Some; congruence).
  replace ((i <? 0) || (len l <=? i)) with false
    by (symmetry; apply orb_false_iff; split;
        [apply Z.ltb_ge | apply Z.leb_gt; unfold len]; lia).
  rewrite E. reflexivity.
Qed.

Lemma getitem_Forall {A} (P : A -> Prop) (l : list A) (i : Z) (x : A) :
  Forall P l -> getitem l i = Ok x -> P x.
Proof.
  intros HP H. rewrite Forall_forall in HP. eapply HP, getitem_In, H.
Qed.

Lemma rcon_lookup (j : Z) :
  0 <= j < 10 -> exists rc, getitem RCON j = Ok rc /\ is_byte rc.
Proof.
  intros Hj.
  assert (C : j = 0 \/ j = 1 \/ j = 2 \/ j = 3 \/ j = 4 \/ j = 5 \/ j = 6
              \/ j = 7 \/ j = 8 \/ j = 9) by lia.
  repeat (destruct C as [-> | C]); try subst j;
    (eexists; split; [reflexivity | unfold is_byte; lia]).
Qed.

Lemma rot_word_eq {A} (a b c d : A) :
  slice [a; b; c; d] (Some 1) None ++ slice [a; b; c; d] None (Some 1)
  = [b; c; d; a].
Proof. reflexivity. Qed.

Lemma getitem_hd4 {A} (a b c d : A) : getitem [a; b; c; d] 0 = Ok a.
Proof. reflexivity. Qed.

Lemma setitem_hd4 {A} (a b c d x : A) :
  setitem [a; b; c; d] 0 x = Ok [x; b; c; d].
Proof. reflexivity. Qed.

Lemma len_app {A} (l l' : list A) : len (l ++ l') = len l + len l'.
Proof. unfold len. rewrite length_app. lia. Qed.

Lemma key_expansion_step_ok (kc : list (list Z)) (i : Z) :
  Forall is_word kc -> len kc = i -> 4 <= i < 44 ->
  exists w, AES.key_expansion_step kc i = Ok (kc ++ [w]) /\ is_word w.
Proof.
  intros Hkc Hlen Hi. unfold AES.key_expansion_step.
  destruct (getitem_exists kc (-1)) as [word Hw]; [lia|].
  destruct (getitem_exists kc (i - 4)) as [prev Hp]; [lia|].
  destruct (getitem_Forall _ _ _ _ Hkc Hw) as [Lw Bw].
  destruct (getitem_Forall _ _ _ _ Hkc Hp) as [Lp Bp].
  rewrite Hw. cbn [bind].
  explode word Lw. explode prev Lp. invert_bytes.
  destruct (i mod 4 =? 0).
  - destruct (rcon_lookup (i / 4 - 1)) as (rc & Hrc & Brc).
    { assert (1 <= i / 4) by (apply Z.div_le_lower_bound; lia).
      assert (i / 4 < 11) by (apply Z.div_lt_upper_bound; lia). lia. }
    cbv zeta. rewrite rot_word_eq.
    rewrite mapM_sbox by solve_bytes. cbn [bind map].
    rewrite getitem_hd4. cbn [bind]. rewrite Hrc. cbn [bind].
    rewrite setitem_hd4. cbn [bind]. rewrite Hp. cbn [bind map combine].
    eexists. split; [reflexivity|]. split; [reflexivity|].
    unfold is_bytes.
    repeat (apply Forall_cons; [solve_byte|]). apply Forall_nil.
  - cbn [bind]. rewrite Hp. cbn [bind map combine].
    eexists. split; [reflexivity|]. split; [reflexivity|].
    unfold is_bytes.
    repeat (apply Forall_cons; [solve_byte|]). apply Forall_nil.
Qed.

Lemma key_expansion_loop_eq (fuel : nat) (kc : list (list Z)) (i : Z) :
  AES.key_expansion_loop fuel kc i =
  if len kc <? 44 then
    match fuel with
    | O => None
    | S fuel' =>
        match AES.key_expansion_step kc i with
        | Ok kc' => AES.key_expansion_loop fuel' kc' (i + 1)
        | Raise e => Some (Raise e)
        end
    end
  else Some (Ok kc).
Proof. destruct fuel; reflexivity. Qed.

(** With at least [44 - i] iterations allowed the loop ends with 44 columns
    that extend the ones it started from; with fewer it is cut short. *)
Lemma key_expansion_loop_ok (fuel : nat) :
  forall (kc : list (list Z)) (i : Z),
    Forall is_word kc -> len kc = i -> 4 <= i <= 44 ->
    (44 - i <= Z.of_nat fuel ->
     exists kc', AES.key_expansion_loop fuel kc i = Some (Ok (kc ++ kc'))
                 /\ Forall is_word kc' /\ len (kc ++ kc') = 44)
    /\ (Z.of_nat fuel < 44 - i -> AES.key_expansion_loop fuel kc i = None).
Proof.
  induction fuel as [|fuel IH]; intros kc i Hkc Hlen Hi;
    rewrite key_expansion_loop_eq.
  - destruct (Z.ltb_spec (len kc) 44) as [Hlt|Hge].
    + split; [intros; lia | reflexivity].
    + split; [|intros; lia]. intros _. exists [].
      rewrite app_nil_r. repeat split; [constructor | lia].
  - destruct (Z.ltb_spec (len kc) 44) as [Hlt|Hge].
    + destruct (key_expansion_step_ok kc i Hkc Hlen) as (w & -> & Hw); [lia|].
      assert (Hkc' : Forall is_word (kc ++ [w]))
        by (apply Forall_app; split; [exact Hkc | constructor; [exact Hw | constructor]]).
      assert (Hlen' : len (kc ++ [w]) = i + 1)
        by (rewrite len_app; cbn; lia).
      destruct (IH (kc ++ [w]) (i + 1) Hkc' Hlen') as [Hyes Hno]; [lia|].
      split.
      * intros Hf. destruct Hyes as (kc' & E & Hw' & Hl'); [lia|].
        exists (w :: kc'). rewrite E.
        rewrite <- app_assoc in *. cbn [app] in *.
        repeat split; [constructor; assumption | exact Hl'].
      * intros Hf. apply Hno. lia.
    + split; [|intros; lia]. intros _. exists [].
      rewrite app_nil_r. repeat split; [constructor | lia].
Qed.

Lemma slice_inside {A} (l : list A) (a b : Z) :
  0 <= a <= b -> b <= len l ->
  slice l (Some a) (Some b)
  = firstn (Z.to_nat (b - a)) (skipn (Z.to_nat a) l).
Proof.
  intros Ha Hb. unfold slice, clamp.
  replace (a <? 0) with false by (symmetry; apply Z.ltb_ge; lia).
  replace (b <? 0) with false by (symmetry; apply Z.ltb_ge; lia).
  rewrite !Z.min_l by lia. reflexivity.
Qed.

Lemma Forall_chunk {A} (P : A -> Prop) (l : list A) (n m : nat) :
  Forall P l -> Forall P (firstn n (skipn m l)).
Proof.
  intros H. rewrite <- (firstn_skipn m l) in H.
  apply Forall_app in H. destruct H as [_ H].
  rewrite <- (firstn_skipn n (skipn m l)) in H.
  apply Forall_app in H. apply H.
Qed.

Lemma concat_words_block (l : list (list Z)) :
  length l = 4%nat -> Forall is_word l -> is_block (concat l).
Proof.
  intros L H. explode l L.
  repeat match goal with
         | H : Forall is_word (_ :: _) |- _ =>
             let Hw := fresh "Hw" in
             apply Forall_cons_iff in H; destruct H as [[? Hw] H]
         end.
  cbn [concat]. rewrite app_nil_r. split.
  - rewrite !length_app. lia.
  - unfold is_bytes in *. repeat (apply Forall_app; split); assumption.
Qed.

Lemma mapM_bytes_ok (l : list (list Z)) :
  Forall is_bytes l -> mapM bytes l = Ok l.
Proof.
  induction 1 as [|b l Hb Hl IH]; [reflexivity|].
  cbn [mapM]. rewrite (bytes_ok b Hb), IH. reflexivity.
Qed.

Lemma range3_0_44_4 :
  range3 0 44 4 = [0; 4; 8; 12; 16; 20; 24; 28; 32; 36; 40].
Proof. reflexivity. Qed.

(** Grouping 44 columns into round keys. *)
Lemma round_keys_ok (kc : list (list Z)) :
  len kc = 44 -> Forall is_word kc ->
  let rks := map (fun i => concat (slice kc (Some i) (Some (i + 4))))
                 (range3 0 44 4) in
  mapM bytes rks = Ok rks /\ length rks = 11%nat /\ Forall is_block rks.
Proof.
  intros L H rks.
  assert (Hb : Forall is_block rks).
  { subst rks. apply Forall_map, Forall_forall. intros i Hi.
    assert (Hr : 0 <= i <= 40)
      by (rewrite range3_0_44_4 in Hi; cbn [In] in Hi; intuition lia).
    rewrite slice_inside by lia.
    apply concat_words_block; [|apply Forall_chunk, H].
    rewrite length_firstn, length_skipn. unfold len in L. lia. }
  repeat split; [|exact Hb].
  apply mapM_bytes_ok. eapply Forall_impl; [|exact Hb].
  intros a Ha. apply Ha.
Qed.

Lemma key_columns_eq (k0 k1 k2 k3 k4 k5 k6 k7 k8 k9 k10 k11 k12 k13 k14 k15 : Z) :
  map (fun i =>
         slice [k0; k1; k2; k3; k4; k5; k6; k7; k8; k9; k10; k11; k12; k13; k14; k15]
               (Some i) (Some (i + 4)))
      (range3 0 16 4)
  = [[k0; k1; k2; k3]; [k4; k5; k6; k7]; [k8; k9; k10; k11]; [k12; k13; k14; k15]].
Proof. reflexivity. Qed.

(** [key_expansion] on a 16-byte key: 40 iterations are needed and are
    enough, and the result is 11 blocks of which the first is the key. *)
Lemma key_expansion_ok (fuel : nat) (key : list Z) :
  is_block key ->
  ((enough_fuel <= fuel)%nat ->
   exists rks, AES.key_expansion fuel key = Some (Ok rks)
               /\ length rks = 11%nat /\ Forall is_block rks
               /\ getitem rks 0 = Ok key)
  /\ ((fuel < enough_fuel)%nat -> AES.key_expansion fuel key = None).
Proof.
  intros [L B]. explode key L. invert_bytes.
  unfold AES.key_expansion, enough_fuel. rewrite key_columns_eq.
  match goal with
  | |- context [AES.key_expansion_loop fuel ?kc 4] =>
      destruct (key_expansion_loop_ok fuel kc 4) as [Hyes Hno]
  end.
  { repeat (apply Forall_cons; [split; [reflexivity | solve_bytes]|]).
    apply Forall_nil. }
  { reflexivity. }
  { lia. }
  split.
  - intros Hf. destruct Hyes as (kc' & -> & Hw & Hl); [lia|].
    match goal with
    | |- context [bind (Ok ?kc) _] =>
        destruct (round_keys_ok kc Hl) as (E & Hn & Hblk)
    end.
    { apply Forall_app. split; [|exact Hw].
      repeat (apply Forall_cons; [split; [reflexivity | solve_bytes]|]).
      apply Forall_nil. }
    cbn [bind]. cbv zeta. rewrite E. eexists.
    split; [reflexivity|]. split; [exact Hn|]. split; [exact Hblk|].
    apply getitem_nonneg; [lia|].
    change (range3 0 44 4) with (0 :: range3 4 44 4).
    cbn [map Z.to_nat nth_error]. rewrite slice_inside; [reflexivity | lia |].
    rewrite len_app. unfold len. cbn [length]. lia.
  - intros Hf. rewrite Hno by lia. reflexivity.
Qed.

(** More fuel does not change a finished run. *)
Lemma key_expansion_loop_mono (fuel : nat) :
  forall fuel' kc i r,
    (fuel <= fuel')%nat ->
    AES.key_expansion_loop fuel kc i = Some r ->
    AES.key_expansion_loop fuel' kc i = Some r.
Proof.
  induction fuel as [|fuel IH]; intros fuel' kc i r Hle;
    rewrite (key_expansion_loop_eq _ kc i),
            (key_expansion_loop_eq fuel' kc i);
    destruct (len kc <? 44); try (intros H; exact H).
  - discriminate.
  - destruct fuel' as [|fuel']; [lia|].
    destruct (AES.key_expansion_step kc i); [|intros H; exact H].
    apply IH. lia.
Qed.

Lemma init_mono (fuel fuel' : nat) (key : list Z) (r : result AES.t) :
  (fuel <= fuel')%nat ->
  AES.__init__ fuel key = Some r -> AES.__init__ fuel' key = Some r.
Proof.
  intros Hle. unfold AES.__init__, AES.key_expansion.
  destruct (negb (len key =? 16)); [intros H; exact H|].
  destruct (AES.key_expansion_loop fuel _ 4) as [r0|] eqn:E; [|discriminate].
  rewrite (key_expansion_loop_mono fuel fuel' _ _ r0 Hle E).
  intros H; exact H.
Qed.

(** Construction, under the same two fuel regimes. *)
Lemma init_ok (fuel : nat) (key : list Z) :
  is_block key ->
  ((enough_fuel <= fuel)%nat ->
   exists rks, AES.key_expansion fuel key = Some (Ok rks)
               /\ AES.__init__ fuel key = Some (Ok (AES.Build key rks))
               /\ length rks = 11%nat /\ Forall is_block rks
               /\ getitem rks 0 = Ok key)
  /\ ((fuel < enough_fuel)%nat -> AES.__init__ fuel key = None).
Proof.
  intros Hk. destruct (key_expansion_ok fuel key Hk) as [Hyes Hno].
  assert (E : negb (len key =? 16) = false).
  { destruct Hk as [L _]. unfold len. rewrite L. reflexivity. }
  unfold AES.__init__. rewrite E. split.
  - intros Hf. destruct (Hyes Hf) as (rks & -> & Hn & Hb & H0).
    exists rks. repeat split; assumption.
  - intros Hf. rewrite (Hno Hf). reflexivity.
Qed.

(** What is known of an instance that a well-formed key produced. *)
Lemma init_inv (fuel : nat) (key : list Z) (self : AES.t) :
  is_bytes key -> AES.__init__ fuel key = Some (Ok self) ->
  is_block key /\ AES.key self = key
  /\ length (AES.round_keys self) = 11%nat
  /\ Forall is_block (AES.round_keys self)
  /\ getitem (AES.round_keys self) 0 = Ok key.
Proof.
  intros B H.
  assert (Hk : is_block key).
  { split; [|exact B]. unfold AES.__init__ in H.
    destruct (Z.eqb_spec (len key) 16) as [E|E]; [|discriminate H].
    unfold len in E. lia. }
  destruct (init_ok fuel key Hk) as [Hyes Hno].
  destruct (Nat.le_gt_cases enough_fuel fuel) as [Hf|Hf].
  - destruct (Hyes Hf) as (rks & _ & E & Hn & Hb & H0).
    rewrite E in H. injection H as <-. cbn [AES.key AES.round_keys].
    destruct Hk. repeat split; assumption.
  - rewrite (Hno Hf) in H. discriminate H.
Qed.

End KeySchedule.

(** ** The cipher driver on a well-formed instance and block *)

Section Driver.

Lemma range_eq (a b : Z) :
  range a b = map (fun k => a + Z.of_nat k) (seq 0 (Z.to_nat (b - a))).
Proof.
  unfold range, range3.
  replace ((b - a + 1 - 1) / 1) with (b - a) by (rewrite Z.div_1_r; lia).
  apply map_ext. intros k. lia.
Qed.

Lemma In_range (a b i : Z) : In i (range a b) <-> a <= i < b.
Proof.
  rewrite range_eq, in_map_iff. split.
  - intros (k & <- & Hk). apply in_seq in Hk. lia.
  - intros Hi. exists (Z.to_nat (i - a)). split; [lia|]. apply in_seq. lia.
Qed.

Lemma length_range (a b : Z) : length (range a b) = Z.to_nat (b - a).
Proof. rewrite range_eq, length_map, length_seq. reflexivity. Qed.

Variable self : AES.t.
Hypothesis round_keys_length : length (AES.round_keys self) = 11%nat.
Hypothesis round_keys_blocks : Forall is_block (AES.round_keys self).

Lemma round_key_lookup (i : Z) :
  0 <= i <= 10 ->
  exists rk, getitem (AES.round_keys self) i = Ok rk /\ is_block rk.
Proof.
  intros Hi.
  destruct (getitem_exists (AES.round_keys self) i) as [rk E];
    [unfold len; lia|].
  exists rk. split; [exact E|].
  eapply getitem_Forall; [exact round_keys_blocks | exact E].
Qed.

(** The loop over main rounds. *)
Lemma main_rounds_block (l : list Z) :
  Forall (fun i => 0 <= i <= 10) l ->
  forall s, is_block s ->
  exists out,
    foldM (fun state i =>
             rk <- getitem (AES.round_keys self) i ;; AES.round state rk)
          l s = Ok out
    /\ is_block out.
Proof.
  induction 1 as [|i l Hi Hl IH]; intros s Hs.
  - exists s. split; [reflexivity | exact Hs].
  - cbn [foldM].
    destruct (round_key_lookup i Hi) as (rk & -> & Hrk). cbn [bind].
    destruct (round_block s rk Hs Hrk) as (s' & -> & Hs').
    apply IH, Hs'.
Qed.

Lemma range_rounds (n : Z) :
  n <= 10 -> Forall (fun i => 0 <= i <= 10) (range 1 n).
Proof.
  intros Hn. apply Forall_forall. intros i Hi.
  apply In_range in Hi. lia.
Qed.

Lemma encrypt_block (p : list Z) :
  is_block p -> exists c, AES.encrypt self p = Ok c /\ is_block c.
Proof.
  intros Hp. unfold AES.encrypt.
  destruct (round_key_lookup 0) as (rk0 & -> & H0); [lia|]. cbn [bind].
  destruct (add_round_key_block p rk0 Hp H0) as (s0 & -> & Hs0). cbn [bind].
  destruct (main_rounds_block (range 1 10) (range_rounds 10 ltac:(lia)) s0 Hs0)
    as (s9 & -> & Hs9). cbn [bind].
  destruct (round_key_lookup 10) as (rk10 & -> & H10); [lia|]. cbn [bind].
  destruct (final_round_block s9 rk10 Hs9 H10) as (c & -> & Hc). cbn [bind].
  exists c. split; [reflexivity | exact Hc].
Qed.

(** The log of the instrumented loop is one [MainRound] per iteration. *)
Lemma instrumented_rounds (l : list Z) :
  forall s log out,
    foldM (fun state i =>
             rk <- getitem (AES.round_keys self) i ;; AES.round state rk)
          l s = Ok out ->
    foldM (fun (st : list Z * list Instrumented.event) i =>
             rk <- getitem (AES.round_keys self) i ;;
             state <- AES.round (fst st) rk ;;
             Ok (state, snd st ++ [Instrumented.MainRound i]))
          l (s, log)
    = Ok (out, log ++ map Instrumented.MainRound l).
Proof.
  induction l as [|i l IH]; intros s log out H; cbn [foldM map] in *.
  - injection H as <-. rewrite app_nil_r. reflexivity.
  - cbn [fst snd].
    destruct (getitem (AES.round_keys self) i) as [rk|]; [|discriminate H].
    cbn [bind] in *.
    destruct (AES.round s rk) as [s'|]; [|discriminate H].
    cbn [bind]. rewrite (IH s' _ out H), <- app_assoc. reflexivity.
Qed.

Lemma instrumented_rounds_raise (l : list Z) :
  forall s log e,
    foldM (fun state i =>
             rk <- getitem (AES.round_keys self) i ;; AES.round state rk)
          l s = Raise e ->
    foldM (fun (st : list Z * list Instrumented.event) i =>
             rk <- getitem (AES.round_keys self) i ;;
             state <- AES.round (fst st) rk ;;
             Ok (state, snd st ++ [Instrumented.MainRound i]))
          l (s, log)
    = Raise e.
Proof.
  induction l as [|i l IH]; intros s log e H; cbn [foldM] in *;
    [discriminate H|].
  cbn [fst snd].
  destruct (getitem (AES.round_keys self) i) as [rk|]; cbn [bind] in *;
    [|injection H as ->; reflexivity].
  destruct (AES.round s rk) as [s'|]; cbn [bind] in *;
    [|injection H as ->; reflexivity].
  apply IH, H.
Qed.

(** Dropping the log of the instrumented driver gives the driver itself,
    on every input, failing runs included. *)
Lemma instrumented_erase (p : list Z) (n : Z) :
  AES.partially_encrypt self p n
  = (st <- Instrumented.partially_encrypt self p n ;; Ok (fst st)).
Proof.
  unfold AES.partially_encrypt, Instrumented.partially_encrypt.
  destruct (getitem (AES.round_keys self) 0) as [rk0|]; [|reflexivity].
  cbn [bind].
  destruct (AES.add_round_key p rk0) as [s0|]; [|reflexivity]. cbn [bind].
  destruct (foldM _ (range 1 n) s0) as [s9|e] eqn:E.
  - rewrite (instrumented_rounds _ _ [] _ E). cbn [bind fst snd].
    destruct (n =? 10); [|reflexivity].
    destruct (getitem (AES.round_keys self) 10) as [rk10|]; [|reflexivity].
    cbn [bind]. destruct (AES.final_round s9 rk10); reflexivity.
  - rewrite (instrumented_rounds_raise _ _ [] _ E). reflexivity.
Qed.

(** What [partially_encrypt] runs for a round count in [1..10]. *)
Lemma partially_encrypt_log (p : list Z) (n : Z) :
  is_block p -> 1 <= n <= 10 ->
  exists c,
    AES.partially_encrypt self p n = Ok c /\ is_block c
    /\ Instrumented.partially_encrypt self p n
       = Ok (c, map Instrumented.MainRound (range 1 n)
                ++ (if n =? 10 then [Instrumented.FinalRound 10] else [])).
Proof.
  intros Hp Hn. unfold AES.partially_encrypt, Instrumented.partially_encrypt.
  destruct (round_key_lookup 0) as (rk0 & -> & H0); [lia|]. cbn [bind].
  destruct (add_round_key_block p rk0 Hp H0) as (s0 & -> & Hs0). cbn [bind].
  destruct (main_rounds_block (range 1 n) (range_rounds n ltac:(lia)) s0 Hs0)
    as (s9 & E & Hs9).
  rewrite E, (instrumented_rounds _ _ [] _ E). cbn [bind app fst snd].
  destruct (n =? 10).
  - destruct (round_key_lookup 10) as (rk10 & -> & H10); [lia|]. cbn [bind].
    destruct (final_round_block s9 rk10 Hs9 H10) as (c & -> & Hc).
    cbn [bind]. exists c.
    split; [reflexivity|]. split; [exact Hc | reflexivity].
  - cbn [bind]. exists s9. rewrite app_nil_r.
    split; [reflexivity|]. split; [exact Hs9 | reflexivity].
Qed.

End Driver.

(** ** Properties of the specification *)

Lemma fips_key_block : is_block fips_key.
Proof. apply blockb_ok. reflexivity. Qed.

Lemma fips_plaintext_block : is_block fips_plaintext.
Proof. apply blockb_ok. reflexivity. Qed.

Lemma fips_cipher_init :
  AES.__init__ enough_fuel fips_key = Some (Ok fips_cipher).
Proof. vm_compute. reflexivity. Qed.

(** [partially_encrypt] with the default round count and [encrypt] are the
    same computation, whatever the instance and the input. *)
Lemma partially_encrypt_10_eq (self : AES.t) (p : list Z) :
  AES.partially_encrypt self p 10 = AES.encrypt self p.
Proof.
  unfold AES.partially_encrypt, AES.encrypt.
  destruct (getitem (AES.round_keys self) 0) as [rk0|]; [|reflexivity].
  cbn [bind].
  destruct (AES.add_round_key p rk0) as [s0|]; [|reflexivity]. cbn [bind].
  destruct (foldM _ (range 1 10) s0) as [s9|]; [|reflexivity].
  cbn [bind]. change (10 =? 10) with true. cbv iota.
  destruct (getitem (AES.round_keys self) 10) as [rk10|]; [|reflexivity].
  cbn [bind]. destruct (AES.final_round s9 rk10); reflexivity.
Qed.

(** C1 (FIPS-197 known-answer test): the cipher constructed with the key
    000102030405060708090a0b0c0d0e0f encrypts the block
    00112233445566778899aabbccddeeff to 69c4e0d86a7b0430d8cdb78070b4c55a,
    whatever iteration bound the construction ran under. *)
Theorem fips197_known_answer (fuel : nat) (self : AES.t) :
  AES.__init__ fuel fips_key = Some (Ok self) ->
  AES.encrypt self fips_plaintext = Ok fips_ciphertext.
Proof.
  intros H.
  destruct (init_ok fuel fips_key fips_key_block) as [_ Hno].
  destruct (Nat.le_gt_cases enough_fuel fuel) as [Hf|Hf];
    [|rewrite (Hno Hf) in H; discriminate H].
  rewrite (init_mono _ _ _ _ Hf fips_cipher_init) in H.
  injection H as <-. vm_compute. reflexivity.
Qed.

Lemma fips197_known_answer_witness :
  AES.__init__ enough_fuel fips_key = Some (Ok fips_cipher)
  /\ AES.encrypt fips_cipher fips_plaintext = Ok fips_ciphertext.
Proof.
  split; [vm_compute; reflexivity|].
  apply (fips197_known_answer enough_fuel fips_cipher).
  vm_compute. reflexivity.
Defined.

(** C2 (round-count monotonicity): for a cipher constructed with a 16-byte
    key and any 16-byte plaintext [p], [partially_encrypt(p, 10)] and
    [encrypt(p)] both return, and return the same 16-byte block. *)
Theorem partially_encrypt_10_encrypt
        (fuel : nat) (key : list Z) (self : AES.t) (p : list Z) :
  is_bytes key -> AES.__init__ fuel key = Some (Ok self) -> is_block p ->
  exists c, AES.partially_encrypt self p 10 = Ok c
            /\ AES.encrypt self p = Ok c
            /\ is_block c.
Proof.
  intros Hk Hinit Hp.
  destruct (init_inv fuel key self Hk Hinit) as (_ & _ & Hn & Hb & _).
  destruct (encrypt_block self Hn Hb p Hp) as (c & E & Hc).
  exists c. rewrite partially_encrypt_10_eq. repeat split; try assumption.
  apply Hc. apply Hc.
Qed.

Lemma partially_encrypt_10_encrypt_witness :
  exists c, AES.partially_encrypt fips_cipher fips_plaintext 10 = Ok c
            /\ AES.encrypt fips_cipher fips_plaintext = Ok c
            /\ is_block c.
Proof.
  apply (partially_encrypt_10_encrypt enough_fuel fips_key).
  - apply forallb_is_bytes. vm_compute. reflexivity.
  - vm_compute. reflexivity.
  - apply blockb_ok. vm_compute. reflexivity.
Defined.

(** Number of round functions [partially_encrypt] calls: [num_rounds - 1]
    main rounds, and the final round only when [num_rounds] is 10. *)
Lemma partially_encrypt_round_count
      (fuel : nat) (key : list Z) (self : AES.t) (p : list Z) (n : Z) :
  is_bytes key -> AES.__init__ fuel key = Some (Ok self) -> is_block p ->
  1 <= n <= 10 ->
  exists c log,
    Instrumented.partially_encrypt self p n = Ok (c, log)
    /\ AES.partially_encrypt self p n = Ok c
    /\ log = map Instrumented.MainRound (range 1 n)
             ++ (if n =? 10 then [Instrumented.FinalRound 10] else [])
    /\ Z.of_nat (length log) = (if n =? 10 then 10 else n - 1).
Proof.
  intros Hk Hinit Hp Hn.
  destruct (init_inv fuel key self Hk Hinit) as (_ & _ & Hl & Hb & _).
  destruct (partially_encrypt_log self Hl Hb p n Hp Hn) as (c & E & _ & El).
  exists c. eexists. split; [exact El|]. split; [exact E|].
  split; [reflexivity|].
  rewrite length_app, length_map, length_range.
  destruct (Z.eqb_spec n 10); cbn [length]; lia.
Qed.

(** C3, on the code as written: asked for one round on the FIPS-197 vector,
    [partially_encrypt] calls neither [round] nor [final_round] and returns
    the whitened plaintext; asked for two, it calls [round] once. *)
Theorem partially_encrypt_runs_one_round_less :
  Instrumented.partially_encrypt fips_cipher fips_plaintext 1
  = Ok (xor_bytes fips_plaintext fips_key, [])
  /\ AES.partially_encrypt fips_cipher fips_plaintext 1
     = AES.add_round_key fips_plaintext fips_key
  /\ (exists c, Instrumented.partially_encrypt fips_cipher fips_plaintext 2
                = Ok (c, [Instrumented.MainRound 1])).
Proof.
  split; [vm_compute; reflexivity|].
  split; [vm_compute; reflexivity|].
  eexists. vm_compute. reflexivity.
Qed.

(** C4 (key-size validation): construction raises the invalid-key-size
    error exactly when the key is not 16 bytes long, and for a 16-byte key
    it returns an instance holding the key and its key schedule. *)
Theorem init_key_size (fuel : nat) (key : list Z) :
  is_bytes key ->
  (AES.__init__ fuel key = Some (Raise AES.invalid_key_size)
   <-> length key <> 16%nat)
  /\ (length key = 16%nat -> (enough_fuel <= fuel)%nat ->
      exists rks, AES.key_expansion fuel key = Some (Ok rks)
                  /\ AES.__init__ fuel key = Some (Ok (AES.Build key rks))).
Proof.
  intros Hk. split; [split|].
  - intros H L.
    destruct (init_ok fuel key (conj L Hk)) as [Hyes Hno].
    destruct (Nat.le_gt_cases enough_fuel fuel) as [Hf|Hf].
    + destruct (Hyes Hf) as (rks & _ & E & _). rewrite E in H. discriminate H.
    + rewrite (Hno Hf) in H. discriminate H.
  - intros L. unfold AES.__init__.
    destruct (Z.eqb_spec (len key) 16) as [E|E]; [|reflexivity].
    unfold len in E. lia.
  - intros L Hf.
    destruct (init_ok fuel key (conj L Hk)) as [Hyes _].
    destruct (Hyes Hf) as (rks & E1 & E2 & _).
    exists rks. split; assumption.
Qed.

Lemma init_key_size_witness :
  (AES.__init__ enough_fuel fips_key = Some (Raise AES.invalid_key_size)
   <-> length fips_key <> 16%nat)
  /\ (length fips_key = 16%nat -> (enough_fuel <= enough_fuel)%nat ->
      exists rks, AES.key_expansion enough_fuel fips_key = Some (Ok rks)
                  /\ AES.__init__ enough_fuel fips_key
                     = Some (Ok (AES.Build fips_key rks))).
Proof.
  apply (init_key_size enough_fuel fips_key).
  apply forallb_is_bytes. vm_compute. reflexivity.
Defined.

(** Keys of 3, 15 and 17 bytes are refused before any iteration is run. *)
Example init_wrong_sizes :
  AES.__init__ 0 [0x2b; 0x7e; 0x15] = Some (Raise AES.invalid_key_size)
  /\ AES.__init__ 0 (firstn 15 fips_key) = Some (Raise AES.invalid_key_size)
  /\ AES.__init__ 0 (fips_key ++ [0x10]) = Some (Raise AES.invalid_key_size).
Proof. repeat split. Qed.

(** C5 (key-schedule structure): for a 16-byte key, key expansion returns
    exactly 11 round keys, each 16 bytes long, and round key 0 is the key. *)
Theorem key_schedule_structure (fuel : nat) (key : list Z) :
  is_block key -> (enough_fuel <= fuel)%nat ->
  exists rks, AES.key_expansion fuel key = Some (Ok rks)
              /\ len rks = 11
              /\ Forall (fun rk => len rk = 16) rks
              /\ getitem rks 0 = Ok key.
Proof.
  intros Hk Hf.
  destruct (key_expansion_ok fuel key Hk) as [Hyes _].
  destruct (Hyes Hf) as (rks & E & Hn & Hb & H0).
  exists rks. split; [exact E|]. split; [unfold len; lia|].
  split; [|exact H0].
  eapply Forall_impl; [|exact Hb].
  intros rk [L _]. unfold len. lia.
Qed.

Lemma key_schedule_structure_witness :
  exists rks, AES.key_expansion enough_fuel fips_key = Some (Ok rks)
              /\ len rks = 11
              /\ Forall (fun rk => len rk = 16) rks
              /\ getitem rks 0 = Ok fips_key.
Proof.
  apply (key_schedule_structure enough_fuel fips_key).
  - apply blockb_ok. vm_compute. reflexivity.
  - unfold enough_fuel. lia.
Defined.

(** C6 (MixColumns): on a 16-byte state, [mix_column] returns a 16-byte
    state in which every column [c] is the column [a0, a1, a2, a3] of the
    input multiplied by the MixColumns matrix over GF(2^8):
    [b0 = 2.a0 + 3.a1 + a2 + a3], [b1 = a0 + 2.a1 + 3.a2 + a3],
    [b2 = a0 + a1 + 2.a2 + 3.a3], [b3 = 3.a0 + a1 + a2 + 2.a3]. *)
Theorem mix_column_spec (state : list Z) :
  is_block state ->
  exists out,
    AES.mix_column state = Ok out /\ is_block out
    /\ forall c, 0 <= c < 4 ->
         exists a0 a1 a2 a3,
           column state c = Ok [a0; a1; a2; a3]
           /\ column out c = Ok (GF256_spec.mix a0 a1 a2 a3).
Proof.
  intros Hs. destruct (mix_column_block state Hs) as (out & E & Hout).
  exists out. split; [exact E|]. split; [exact Hout|].
  destruct Hs as [L B]. explode state L. invert_bytes.
  rewrite mix_column_eq in E. apply bytes_inv in E. destruct E as [-> _].
  assert (Hm : forall a0 a1 a2 a3,
             is_byte a0 -> is_byte a1 -> is_byte a2 -> is_byte a3 ->
             mixed a0 a1 a2 a3 = GF256_spec.mix a0 a1 a2 a3).
  { intros a0 a1 a2 a3 H0 H1 H2 H3. unfold mixed, GF256_spec.mix.
    rewrite !mul_by_02_gf, !mul_by_03_gf by assumption. reflexivity. }
  intros c Hc.
  assert (C : c = 0 \/ c = 1 \/ c = 2 \/ c = 3) by lia.
  destruct C as [-> | [-> | [-> | ->]]];
    do 4 eexists; (split; [reflexivity|]);
    rewrite <- Hm by assumption; reflexivity.
Qed.

Lemma mix_column_spec_witness :
  exists out,
    AES.mix_column fips_plaintext = Ok out /\ is_block out
    /\ forall c, 0 <= c < 4 ->
         exists a0 a1 a2 a3,
           column fips_plaintext c = Ok [a0; a1; a2; a3]
           /\ column out c = Ok (GF256_spec.mix a0 a1 a2 a3).
Proof.
  apply (mix_column_spec fips_plaintext).
  apply blockb_ok. vm_compute. reflexivity.
Defined.

(** FIPS-197, section 5.1.3 test column: [db 13 53 45 -> 8e 4d a1 bc]. *)
Example mix_single_column_fips :
  AES.mix_single_column [0xdb; 0x13; 0x53; 0x45] = Ok [0x8e; 0x4d; 0xa1; 0xbc]
  /\ GF256_spec.mix 0xdb 0x13 0x53 0x45 = [0x8e; 0x4d; 0xa1; 0xbc].
Proof. split; reflexivity. Qed.

(** C7 (multiplication by [x]): for [0 <= b <= 255], [mul_by_02 b] is [b]
    shifted left by one bit, XORed with 0x1B and masked to 8 bits when bit
    0x80 of [b] is set; it is the GF(2^8) product of [b] with the polynomial
    [x] modulo [x^8 + x^4 + x^3 + x + 1]; and it lies in [0..255]. *)
Theorem mul_by_02_spec (b : Z) :
  0 <= b <= 255 ->
  AES.mul_by_02 b
  = (if Z.testbit b 7
     then Z.land (Z.lxor (Z.shiftl b 1) 0x1B) 0xFF
     else Z.shiftl b 1)
  /\ AES.mul_by_02 b = GF256_spec.mul b GF256_spec.x
  /\ 0 <= AES.mul_by_02 b <= 255.
Proof.
  intros Hb. assert (B : is_byte b) by (unfold is_byte; lia).
  split; [|split].
  - apply Z.eqb_eq.
    apply (forall_byte
             (fun b => AES.mul_by_02 b
                       =? (if Z.testbit b 7
                           then Z.land (Z.lxor (Z.shiftl b 1) 0x1B) 0xFF
                           else Z.shiftl b 1)));
      [vm_compute; reflexivity | exact B].
  - rewrite mul_by_02_gf by exact B. unfold GF256_spec.x.
    apply gf_mul_comm; [|exact B]. unfold is_byte. lia.
  - pose proof (mul_by_02_byte b) as H. unfold is_byte in H. lia.
Qed.

Lemma mul_by_02_spec_witness :
  AES.mul_by_02 0x80
  = (if Z.testbit 0x80 7
     then Z.land (Z.lxor (Z.shiftl 0x80 1) 0x1B) 0xFF
     else Z.shiftl 0x80 1)
  /\ AES.mul_by_02 0x80 = GF256_spec.mul 0x80 GF256_spec.x
  /\ 0 <= AES.mul_by_02 0x80 <= 255.
Proof. apply (mul_by_02_spec 0x80). lia. Defined.

(** FIPS-197, section 4.2.1: [{57} . {02} = {ae}] and [{ae} . {02} = {47}]. *)
Example mul_by_02_fips : AES.mul_by_02 0x57 = 0xae /\ AES.mul_by_02 0xae = 0x47.
Proof. split; reflexivity. Qed.

(** C8 (ShiftRows): on a 16-byte state, [shift_rows] returns a 16-byte state
    whose byte at index [r + 4*c] is the input byte at index
    [r + 4*((c + r) mod 4)]: row [r] is rotated left by [r] positions. *)
Theorem shift_rows_spec (state : list Z) :
  is_block state ->
  exists out,
    AES.shift_rows state = Ok out /\ is_block out
    /\ forall r c, 0 <= r < 4 -> 0 <= c < 4 ->
         getitem out (r + 4 * c) = getitem state (r + 4 * ((c + r) mod 4)).
Proof.
  intros Hs. destruct (shift_rows_block state Hs) as (out & E & Hout).
  exists out. split; [exact E|]. split; [exact Hout|].
  destruct Hs as [L B]. explode state L. invert_bytes.
  rewrite shift_rows_eq in E. apply bytes_inv in E. destruct E as [-> _].
  intros r c Hr Hc.
  assert (R : r = 0 \/ r = 1 \/ r = 2 \/ r = 3) by lia.
  assert (C : c = 0 \/ c = 1 \/ c = 2 \/ c = 3) by lia.
  destruct R as [-> | [-> | [-> | ->]]];
    destruct C as [-> | [-> | [-> | ->]]]; reflexivity.
Qed.

Lemma shift_rows_spec_witness :
  exists out,
    AES.shift_rows fips_plaintext = Ok out /\ is_block out
    /\ forall r c, 0 <= r < 4 -> 0 <= c < 4 ->
         getitem out (r + 4 * c)
         = getitem fips_plaintext (r + 4 * ((c + r) mod 4)).
Proof.
  apply (shift_rows_spec fips_plaintext).
  apply blockb_ok. vm_compute. reflexivity.
Defined.

Example shift_rows_fips :
  AES.shift_rows fips_plaintext
  = Ok [0x00; 0x55; 0xaa; 0xff; 0x44; 0x99; 0xee; 0x33;
        0x88; 0xdd; 0x22; 0x77; 0xcc; 0x11; 0x66; 0xbb].
Proof. reflexivity. Qed.

Lemma xor_bytes_involutive (s k : list Z) :
  (length s <= length k)%nat -> xor_bytes (xor_bytes s k) k = s.
Proof.
  unfold xor_bytes. revert k.
  induction s as [|b s IH]; intros k L; [reflexivity|].
  destruct k as [|c k]; [cbn in L; lia|].
  cbn [combine map]. rewrite IH by (cbn in L; lia).
  rewrite Z.lxor_assoc, Z.lxor_nilpotent, Z.lxor_0_r. reflexivity.
Qed.

(** C9 (AddRoundKey is self-inverse): for a 16-byte state [s] and a 16-byte
    round key [k], [add_round_key(add_round_key(s, k), k)] returns [s]. *)
Theorem add_round_key_involutive (s k : list Z) :
  is_block s -> is_block k ->
  (t <- AES.add_round_key s k ;; AES.add_round_key t k) = Ok s.
Proof.
  intros [Ls Bs] [Lk Bk].
  rewrite (add_round_key_ok s k Bs Bk). cbn [bind].
  rewrite add_round_key_ok
    by (try apply xor_bytes_is_bytes; assumption).
  rewrite xor_bytes_involutive by lia. reflexivity.
Qed.

Lemma add_round_key_involutive_witness :
  (t <- AES.add_round_key fips_plaintext fips_key ;;
   AES.add_round_key t fips_key) = Ok fips_plaintext.
Proof.
  apply (add_round_key_involutive fips_plaintext fips_key);
    apply blockb_ok; vm_compute; reflexivity.
Defined.

(** [add_round_key] reads as many bytes of the state as the key has. *)
Lemma add_round_key_firstn (p k : list Z) :
  AES.add_round_key p k = AES.add_round_key (firstn (length k) p) k.
Proof. unfold AES.add_round_key. rewrite <- combine_firstn_r. reflexivity. Qed.

(** C10 (over-long input): for a cipher constructed with a 16-byte key and a
    byte sequence [p] of more than 16 bytes, [encrypt(p)] raises nothing and
    returns the 16-byte block that [encrypt] returns on the first 16 bytes
    of [p]. *)
Theorem encrypt_long_input
        (fuel : nat) (key : list Z) (self : AES.t) (p : list Z) :
  is_bytes key -> AES.__init__ fuel key = Some (Ok self) ->
  is_bytes p -> (16 < length p)%nat ->
  exists c, AES.encrypt self p = Ok c
            /\ AES.encrypt self (firstn 16 p) = Ok c
            /\ is_block c.
Proof.
  intros Hk Hinit Bp Lp.
  destruct (init_inv fuel key self Hk Hinit) as ([Lk _] & _ & Hn & Hb & H0).
  assert (Hp : is_block (firstn 16 p)).
  { split; [rewrite length_firstn; lia|].
    unfold is_bytes in *. rewrite <- (firstn_skipn 16 p) in Bp.
    apply Forall_app in Bp. apply Bp. }
  destruct (encrypt_block self Hn Hb _ Hp) as (c & E & Hc).
  exists c. split; [|split; assumption].
  rewrite <- E. unfold AES.encrypt. rewrite H0. cbn [bind].
  rewrite (add_round_key_firstn p key), Lk. reflexivity.
Qed.

Lemma encrypt_long_input_witness :
  exists c, AES.encrypt fips_cipher (fips_plaintext ++ [0xde; 0xad]) = Ok c
            /\ AES.encrypt fips_cipher (firstn 16 (fips_plaintext ++ [0xde; 0xad]))
               = Ok c
            /\ is_block c.
Proof.
  apply (encrypt_long_input enough_fuel fips_key).
  - apply forallb_is_bytes. vm_compute. reflexivity.
  - vm_compute. reflexivity.
  - apply forallb_is_bytes. vm_compute. reflexivity.
  - apply Nat.ltb_lt. vm_compute. reflexivity.
Defined.


(** ** Further properties of the code *)

(** *** The S-box and [byte_substitution] *)

Lemma sbox_inverse (b : Z) : is_byte b -> Inverse.sbox (sbox b) = b.
Proof.
  intros Hb. apply Z.eqb_eq.
  apply (forall_byte (fun b => Inverse.sbox (sbox b) =? b));
    [vm_compute; reflexivity | exact Hb].
Qed.

Lemma map_sbox_injective (s t : list Z) :
  is_bytes s -> is_bytes t -> map sbox s = map sbox t -> s = t.
Proof.
  intros Hs. revert t.
  induction Hs as [|a s Ha Hs IH]; intros t Ht E.
  - destruct t; [reflexivity | discriminate E].
  - destruct Ht as [|b t Hb Ht]; [discriminate E|].
    cbn [map] in E. injection E as E0 E1.
    f_equal; [|apply IH; assumption].
    rewrite <- (sbox_inverse a Ha), <- (sbox_inverse b Hb), E0. reflexivity.
Qed.

(** The table [S_BOX] is a permutation of the byte values: 256 entries, all
    in [0..255], no value twice. *)
Theorem S_BOX_permutation :
  length S_BOX = 256%nat /\ is_bytes S_BOX /\ NoDup S_BOX.
Proof.
  split; [reflexivity|]. split; [apply forallb_is_bytes; reflexivity|].
  apply (NoDup_nth S_BOX 0). intros i j Hi Hj E.
  change (length S_BOX) with 256%nat in Hi, Hj.
  assert (Bi : is_byte (Z.of_nat i)) by (unfold is_byte; lia).
  assert (Bj : is_byte (Z.of_nat j)) by (unfold is_byte; lia).
  apply Nat2Z.inj.
  rewrite <- (sbox_inverse _ Bi), <- (sbox_inverse _ Bj).
  unfold sbox. rewrite !Nat2Z.id, E. reflexivity.
Qed.

(** [byte_substitution] accepts a byte sequence of any length, keeps its
    length, and is injective: two byte sequences with the same image are
    equal. *)
Theorem byte_substitution_injective (s t : list Z) :
  is_bytes s -> is_bytes t ->
  (exists out, AES.byte_substitution s = Ok out
               /\ length out = length s /\ is_bytes out)
  /\ (AES.byte_substitution s = AES.byte_substitution t -> s = t).
Proof.
  intros Hs Ht. split.
  - exists (map sbox s). split; [apply byte_substitution_ok, Hs|].
    split; [apply length_map | apply map_sbox_is_bytes, Hs].
  - rewrite (byte_substitution_ok s Hs), (byte_substitution_ok t Ht).
    intros [= E]. apply map_sbox_injective; assumption.
Qed.

Lemma byte_substitution_injective_witness :
  (exists out, AES.byte_substitution fips_plaintext = Ok out
               /\ length out = length fips_plaintext /\ is_bytes out)
  /\ (AES.byte_substitution fips_plaintext = AES.byte_substitution fips_plaintext
      -> fips_plaintext = fips_plaintext).
Proof.
  apply (byte_substitution_injective fips_plaintext fips_plaintext);
    apply forallb_is_bytes; vm_compute; reflexivity.
Defined.

(** *** The field helpers *)

Lemma land_shiftl_low (b : Z) :
  Z.land (Z.shiftl (Z.land b 255) 1) 255 = Z.land (Z.shiftl b 1) 255.
Proof.
  apply Z.bits_inj'. intros n Hn.
  rewrite !Z.land_spec, !Z.shiftl_spec, Z.land_spec by exact Hn.
  change 255 with (Z.ones 8). rewrite !Z.testbit_ones by lia.
  destruct (Z.leb_spec 0 n); destruct (Z.ltb_spec n 8);
    cbn [andb]; rewrite ?andb_false_r; try reflexivity.
  destruct (Z.leb_spec 0 (n - 1)); destruct (Z.ltb_spec (n - 1) 8);
    cbn [andb]; rewrite ?andb_true_r, ?andb_false_r; try reflexivity; try lia.
  rewrite Z.testbit_neg_r by lia. reflexivity.
Qed.

Lemma land_lxor_l (a b c : Z) :
  Z.land (Z.lxor a b) c = Z.lxor (Z.land a c) (Z.land b c).
Proof.
  apply Z.bits_inj'. intros n _.
  rewrite !Z.land_spec, !Z.lxor_spec, !Z.land_spec.
  destruct (Z.testbit a n), (Z.testbit b n), (Z.testbit c n); reflexivity.
Qed.

(** [mul_by_02] accepts any integer: the result is always in [0..255] and
    depends only on the low eight bits of the argument. *)
Theorem mul_by_02_any_integer (b : Z) :
  0 <= AES.mul_by_02 b <= 255
  /\ AES.mul_by_02 b = AES.mul_by_02 (b mod 256).
Proof.
  split.
  - pose proof (mul_by_02_byte b) as H. unfold is_byte in H. lia.
  - change 256 with (2 ^ 8). rewrite <- Z.land_ones by lia.
    change (Z.ones 8) with 255. unfold AES.mul_by_02.
    rewrite <- (Z.land_assoc b 255 128). change (Z.land 255 128) with 128.
    rewrite !land_lxor_l, land_shiftl_low. reflexivity.
Qed.

(** For [0 <= b <= 255], [mul_by_03 b] is the GF(2^8) product of [b] with
    the polynomial [x + 1], [mul_by_01 b] is the product with [1], and both
    lie in [0..255]. *)
Theorem mul_by_03_spec (b : Z) :
  0 <= b <= 255 ->
  AES.mul_by_03 b = GF256_spec.mul b 3
  /\ 0 <= AES.mul_by_03 b <= 255
  /\ AES.mul_by_01 b = GF256_spec.mul b 1.
Proof.
  intros Hb. assert (B : is_byte b) by (unfold is_byte; lia).
  assert (B3 : is_byte 3) by (unfold is_byte; lia).
  assert (B1 : is_byte 1) by (unfold is_byte; lia).
  split; [|split].
  - rewrite mul_by_03_gf by exact B. apply gf_mul_comm; assumption.
  - pose proof (mul_by_03_byte b B) as H. unfold is_byte in H. lia.
  - rewrite mul_by_01_gf by exact B. apply gf_mul_comm; assumption.
Qed.

Lemma mul_by_03_spec_witness :
  AES.mul_by_03 0x57 = GF256_spec.mul 0x57 3
  /\ 0 <= AES.mul_by_03 0x57 <= 255
  /\ AES.mul_by_01 0x57 = GF256_spec.mul 0x57 1.
Proof. apply (mul_by_03_spec 0x57). lia. Defined.

(** *** [shift_rows] and [mix_column] *)

(** Equalities between XOR expressions, bit by bit. *)
Ltac xor_ac :=
  apply Z.bits_inj'; intros ? _; rewrite ?Z.lxor_spec, ?Z.bits_0; btauto.

Ltac solve_bytes' :=
  unfold is_bytes;
  repeat (apply Forall_cons; [solve_byte|]); apply Forall_nil.

(** Four applications of [shift_rows] to a 16-byte state give the state
    back. *)
Theorem shift_rows_four_times (state : list Z) :
  is_block state ->
  (s1 <- AES.shift_rows state ;; s2 <- AES.shift_rows s1 ;;
   s3 <- AES.shift_rows s2 ;; AES.shift_rows s3) = Ok state.
Proof.
  intros [L B]. explode state L. invert_bytes.
  do 4 (rewrite shift_rows_eq, bytes_ok by solve_bytes; cbn [bind]).
  reflexivity.
Qed.

Lemma shift_rows_four_times_witness :
  (s1 <- AES.shift_rows fips_plaintext ;; s2 <- AES.shift_rows s1 ;;
   s3 <- AES.shift_rows s2 ;; AES.shift_rows s3) = Ok fips_plaintext.
Proof.
  apply (shift_rows_four_times fips_plaintext).
  apply blockb_ok. vm_compute. reflexivity.
Defined.

(** On a 16-byte state, substituting bytes and then shifting rows gives the
    same state as shifting rows and then substituting bytes. *)
Theorem byte_substitution_shift_rows_commute (state : list Z) :
  is_block state ->
  (s <- AES.byte_substitution state ;; AES.shift_rows s)
  = (s <- AES.shift_rows state ;; AES.byte_substitution s).
Proof.
  intros [L B]. explode state L. invert_bytes.
  rewrite byte_substitution_ok by solve_bytes. cbn [bind map].
  rewrite !shift_rows_eq, !bytes_ok by solve_bytes'. cbn [bind].
  rewrite byte_substitution_ok by solve_bytes. reflexivity.
Qed.

Lemma byte_substitution_shift_rows_commute_witness :
  (s <- AES.byte_substitution fips_plaintext ;; AES.shift_rows s)
  = (s <- AES.shift_rows fips_plaintext ;; AES.byte_substitution s).
Proof.
  apply (byte_substitution_shift_rows_commute fips_plaintext).
  apply blockb_ok. vm_compute. reflexivity.
Defined.

Lemma short_state_raises (state : list Z) :
  (length state < 16)%nat ->
  AES.shift_rows state = Raise IndexError
  /\ AES.mix_column state = Raise IndexError.
Proof.
  intros L.
  do 16 (destruct state as [|? state]; [split; reflexivity|]).
  cbn [length] in L. lia.
Qed.

(** A state of fewer than 16 elements makes [shift_rows] and [mix_column]
    raise [IndexError], whatever the elements are. *)
Theorem state_too_short (state : list Z) :
  (length state < 16)%nat ->
  AES.shift_rows state = Raise IndexError
  /\ AES.mix_column state = Raise IndexError.
Proof. exact (short_state_raises state). Qed.

Lemma state_too_short_witness :
  AES.shift_rows (firstn 15 fips_plaintext) = Raise IndexError
  /\ AES.mix_column (firstn 15 fips_plaintext) = Raise IndexError.
Proof.
  apply (state_too_short (firstn 15 fips_plaintext)).
  apply Nat.ltb_lt. vm_compute. reflexivity.
Defined.

Lemma getitem_firstn {A} (l : list A) (n : nat) (i : Z) :
  0 <= i < Z.of_nat n -> (n <= length l)%nat ->
  getitem (firstn n l) i = getitem l i.
Proof.
  intros Hi Hn. unfold getitem, len.
  rewrite length_firstn, Nat.min_l by exact Hn.
  replace (i <? 0) with false by (symmetry; apply Z.ltb_ge; lia).
  replace (Z.of_nat n <=? i) with false by (symmetry; apply Z.leb_gt; lia).
  replace (Z.of_nat (length l) <=? i) with false
    by (symmetry; apply Z.leb_gt; lia).
  cbn [orb]. rewrite nth_error_firstn.
  replace (Z.to_nat i <? n)%nat with true
    by (symmetry; apply Nat.ltb_lt; lia).
  reflexivity.
Qed.

Lemma mapM_ext_in {A B} (f g : A -> result B) (l : list A) :
  (forall x, In x l -> f x = g x) -> mapM f l = mapM g l.
Proof.
  induction l as [|x l IH]; intros H; [reflexivity|].
  cbn [mapM]. rewrite (H x (or_introl eq_refl)), IH; [reflexivity|].
  intros y Hy. apply H. right. exact Hy.
Qed.

(** Reading a 4x4 matrix touches the first 16 elements only. *)
Lemma read_matrix_firstn (s : list Z) (f : Z -> Z -> Z) :
  (forall a b, 0 <= a < 4 -> 0 <= b < 4 -> 0 <= f a b < 16) ->
  (16 <= length s)%nat ->
  mapM (fun a => mapM (fun b => getitem s (f a b)) (range 0 4)) (range 0 4)
  = mapM (fun a => mapM (fun b => getitem (firstn 16 s) (f a b)) (range 0 4))
         (range 0 4).
Proof.
  intros Hf L. apply mapM_ext_in. intros a Ha.
  apply mapM_ext_in. intros b Hb.
  apply In_range in Ha. apply In_range in Hb.
  symmetry. apply getitem_firstn; [|exact L].
  specialize (Hf a b Ha Hb). lia.
Qed.

(** [shift_rows] and [mix_column] look at the first 16 elements of the state
    only: on a longer state they return what they return on its first 16
    elements. *)
Theorem state_excess_ignored (state : list Z) :
  (16 <= length state)%nat ->
  AES.shift_rows state = AES.shift_rows (firstn 16 state)
  /\ AES.mix_column state = AES.mix_column (firstn 16 state).
Proof.
  intros L. unfold AES.shift_rows, AES.mix_column. split.
  - rewrite (read_matrix_firstn state (fun r c => r + 4 * c))
      by (intros; lia || exact L).
    reflexivity.
  - rewrite (read_matrix_firstn state (fun c r => r + 4 * c))
      by (intros; lia || exact L).
    reflexivity.
Qed.

Lemma state_excess_ignored_witness :
  AES.shift_rows (fips_plaintext ++ [0xde; 0xad])
  = AES.shift_rows (firstn 16 (fips_plaintext ++ [0xde; 0xad]))
  /\ AES.mix_column (fips_plaintext ++ [0xde; 0xad])
     = AES.mix_column (firstn 16 (fips_plaintext ++ [0xde; 0xad])).
Proof.
  apply (state_excess_ignored (fips_plaintext ++ [0xde; 0xad])).
  apply Nat.leb_le. vm_compute. reflexivity.
Defined.

(** *** Linearity and invertibility of [mix_column] *)

Lemma bit_term_xor (a b i c : Z) :
  bit_term (Z.lxor a b) i c = Z.lxor (bit_term a i c) (bit_term b i c).
Proof.
  unfold bit_term. rewrite Z.lxor_spec.
  destruct (Z.testbit a i), (Z.testbit b i); cbn [xorb];
    rewrite ?Z.lxor_nilpotent, ?Z.lxor_0_r, ?Z.lxor_0_l; reflexivity.
Qed.

Lemma byte_linear_xor (f : Z -> Z) (a b : Z) :
  byte_linear f (Z.lxor a b) = Z.lxor (byte_linear f a) (byte_linear f b).
Proof.
  unfold byte_linear. cbn [fold_right]. rewrite !bit_term_xor. xor_ac.
Qed.

Lemma mul_by_02_xor (a b : Z) :
  is_byte a -> is_byte b ->
  AES.mul_by_02 (Z.lxor a b) = Z.lxor (AES.mul_by_02 a) (AES.mul_by_02 b).
Proof.
  intros Ha Hb.
  assert (L : forall c, is_byte c ->
                AES.mul_by_02 c = byte_linear AES.mul_by_02 c).
  { intros c Hc. apply Z.eqb_eq.
    apply (forall_byte
             (fun c => AES.mul_by_02 c =? byte_linear AES.mul_by_02 c));
      [vm_compute; reflexivity | exact Hc]. }
  rewrite !L by (assumption || apply lxor_byte; assumption).
  apply byte_linear_xor.
Qed.

Lemma mul_by_03_xor (a b : Z) :
  is_byte a -> is_byte b ->
  AES.mul_by_03 (Z.lxor a b) = Z.lxor (AES.mul_by_03 a) (AES.mul_by_03 b).
Proof.
  intros Ha Hb. unfold AES.mul_by_03. rewrite mul_by_02_xor by assumption.
  xor_ac.
Qed.

Lemma mixed_xor (a0 a1 a2 a3 b0 b1 b2 b3 : Z) :
  is_byte a0 -> is_byte a1 -> is_byte a2 -> is_byte a3 ->
  is_byte b0 -> is_byte b1 -> is_byte b2 -> is_byte b3 ->
  mixed (Z.lxor a0 b0) (Z.lxor a1 b1) (Z.lxor a2 b2) (Z.lxor a3 b3)
  = xor_bytes (mixed a0 a1 a2 a3) (mixed b0 b1 b2 b3).
Proof.
  intros. unfold mixed, xor_bytes. cbn [map combine].
  rewrite !mul_by_02_xor, !mul_by_03_xor by assumption.
  repeat (apply f_equal2; [xor_ac|]). reflexivity.
Qed.

Lemma xor_bytes_app (a b c d : list Z) :
  length a = length c ->
  xor_bytes (a ++ b) (c ++ d) = xor_bytes a c ++ xor_bytes b d.
Proof.
  unfold xor_bytes. revert c.
  induction a as [|x a IH]; intros c L; destruct c as [|y c];
    try discriminate L; [reflexivity|].
  cbn [app combine map]. rewrite IH by (injection L as L; exact L).
  reflexivity.
Qed.

(** [mix_column] is linear over XOR: on 16-byte states, the image of the
    byte-wise XOR of two states is the byte-wise XOR of their images. *)
Theorem mix_column_linear (s t : list Z) :
  is_block s -> is_block t ->
  exists ms mt,
    AES.mix_column s = Ok ms /\ AES.mix_column t = Ok mt
    /\ AES.mix_column (xor_bytes s t) = Ok (xor_bytes ms mt).
Proof.
  intros [Ls Bs] [Lt Bt]. explode s Ls. explode t Lt. invert_bytes.
  unfold xor_bytes at 1. cbn [map combine].
  rewrite !mix_column_eq.
  assert (Happ : forall a b c d,
             is_bytes a -> is_bytes b -> is_bytes c -> is_bytes d ->
             is_bytes (a ++ b ++ c ++ d)).
  { intros. unfold is_bytes. repeat (apply Forall_app; split); assumption. }
  do 2 eexists. split; [|split].
  - apply bytes_ok, Happ; apply mixed_is_bytes; assumption.
  - apply bytes_ok, Happ; apply mixed_is_bytes; assumption.
  - rewrite !mixed_xor by assumption.
    rewrite !xor_bytes_app by reflexivity.
    apply bytes_ok, Happ;
      apply xor_bytes_is_bytes; apply mixed_is_bytes; assumption.
Qed.

Lemma mix_column_linear_witness :
  exists ms mt,
    AES.mix_column fips_plaintext = Ok ms /\ AES.mix_column fips_key = Ok mt
    /\ AES.mix_column (xor_bytes fips_plaintext fips_key)
       = Ok (xor_bytes ms mt).
Proof.
  apply (mix_column_linear fips_plaintext fips_key);
    apply blockb_ok; vm_compute; reflexivity.
Defined.

Lemma gf_mul_xor (k a b : Z) :
  In k [9; 11; 13; 14] -> is_byte a -> is_byte b ->
  GF256_spec.mul k (Z.lxor a b)
  = Z.lxor (GF256_spec.mul k a) (GF256_spec.mul k b).
Proof.
  intros Hk Ha Hb.
  assert (L : forall c, is_byte c ->
                GF256_spec.mul k c = byte_linear (GF256_spec.mul k) c).
  { intros c Hc. apply Z.eqb_eq. revert c Hc. cbn [In] in Hk.
    destruct Hk as [<- | [<- | [<- | [<- | []]]]];
      apply (forall_byte
               (fun c => GF256_spec.mul _ c
                         =? byte_linear (GF256_spec.mul _) c));
      vm_compute; reflexivity. }
  rewrite !L by (assumption || apply lxor_byte; assumption).
  apply byte_linear_xor.
Qed.

(** Products by the constants of the two matrices, on the basis
    [a, 2.a, 4.a, 8.a, 16.a]. *)
Lemma gf_basis (a : Z) :
  is_byte a ->
  let m := GF256_spec.mul in
  let x1 := a in let x2 := m 2 a in let x4 := m 4 a in
  let x8 := m 8 a in let x16 := m 16 a in
  (m 14 a = Z.lxor (Z.lxor x8 x4) x2
   /\ m 11 a = Z.lxor (Z.lxor x8 x2) x1
   /\ m 13 a = Z.lxor (Z.lxor x8 x4) x1
   /\ m 9 a = Z.lxor x8 x1)
  /\ (m 14 (AES.mul_by_02 a) = Z.lxor (Z.lxor x16 x8) x4
      /\ m 11 (AES.mul_by_02 a) = Z.lxor (Z.lxor x16 x4) x2
      /\ m 13 (AES.mul_by_02 a) = Z.lxor (Z.lxor x16 x8) x2
      /\ m 9 (AES.mul_by_02 a) = Z.lxor x16 x2)
  /\ (m 14 (AES.mul_by_03 a) = Z.lxor x16 x2
      /\ m 11 (AES.mul_by_03 a) = Z.lxor (Z.lxor (Z.lxor x16 x8) x4) x1
      /\ m 13 (AES.mul_by_03 a) = Z.lxor (Z.lxor (Z.lxor x16 x4) x2) x1
      /\ m 9 (AES.mul_by_03 a) = Z.lxor (Z.lxor (Z.lxor x16 x8) x2) x1).
Proof.
  intros Ha m x1 x2 x4 x8 x16. subst m x1 x2 x4 x8 x16.
  repeat match goal with
         | |- _ /\ _ => split
         | |- ?l = ?r =>
             apply Z.eqb_eq;
             match eval pattern a in (l =? r) with
             | ?P _ => apply (forall_byte P); [vm_compute; reflexivity | exact Ha]
             end
         end.
Qed.

Ltac use_gf_basis a :=
  match goal with
  | H : is_byte a |- _ =>
      let E := fresh "E" in
      pose proof (gf_basis a H) as E; cbv zeta in E;
      decompose [and] E; clear E;
      repeat match goal with
             | Heq : GF256_spec.mul _ _ = _ |- _ => rewrite Heq; clear Heq
             end
  end.

(** The inverse matrix undoes [mix_single_column]. *)
Lemma inverse_mixed (a0 a1 a2 a3 : Z) :
  is_byte a0 -> is_byte a1 -> is_byte a2 -> is_byte a3 ->
  Inverse.mix_single_column (mixed a0 a1 a2 a3) = [a0; a1; a2; a3].
Proof.
  intros H0 H1 H2 H3.
  unfold mixed, Inverse.mix_single_column, Inverse.mix. cbv zeta.
  rewrite !gf_mul_xor by (solve [cbn [In]; tauto] || solve_byte).
  use_gf_basis a0. use_gf_basis a1. use_gf_basis a2. use_gf_basis a3.
  repeat (apply f_equal2; [xor_ac|]). reflexivity.
Qed.

Lemma app_inv_length {A} (a b c d : list A) :
  length a = length c -> a ++ b = c ++ d -> a = c /\ b = d.
Proof.
  revert c. induction a as [|x a IH]; intros c L E; destruct c as [|y c];
    try discriminate L.
  - split; [reflexivity | exact E].
  - cbn [app] in E. injection E as -> E. injection L as L.
    destruct (IH c L E) as [-> ->]. split; reflexivity.
Qed.

Lemma mixed_injective (a0 a1 a2 a3 b0 b1 b2 b3 : Z) :
  is_byte a0 -> is_byte a1 -> is_byte a2 -> is_byte a3 ->
  is_byte b0 -> is_byte b1 -> is_byte b2 -> is_byte b3 ->
  mixed a0 a1 a2 a3 = mixed b0 b1 b2 b3 ->
  [a0; a1; a2; a3] = [b0; b1; b2; b3].
Proof.
  intros ? ? ? ? ? ? ? ? E.
  rewrite <- (inverse_mixed a0 a1 a2 a3), <- (inverse_mixed b0 b1 b2 b3), E
    by assumption.
  reflexivity.
Qed.

Lemma Ok_inj {A} (a b : A) : Ok a = Ok b -> a = b.
Proof. intros E. injection E as E. exact E. Qed.

Lemma mix_column_inj (s t : list Z) :
  is_block s -> is_block t ->
  AES.mix_column s = AES.mix_column t -> s = t.
Proof.
  intros [Ls Bs] [Lt Bt]. explode s Ls. explode t Lt. invert_bytes.
  rewrite !mix_column_eq.
  assert (Happ : forall a b c d,
             is_bytes a -> is_bytes b -> is_bytes c -> is_bytes d ->
             is_bytes (a ++ b ++ c ++ d)).
  { intros. unfold is_bytes. repeat (apply Forall_app; split); assumption. }
  rewrite !bytes_ok by (apply Happ; apply mixed_is_bytes; assumption).
  intros E. apply Ok_inj in E.
  apply app_inv_length in E; [|reflexivity]. destruct E as [E0 E].
  apply app_inv_length in E; [|reflexivity]. destruct E as [E1 E].
  apply app_inv_length in E; [|reflexivity]. destruct E as [E2 E3].
  apply mixed_injective in E0; try assumption.
  apply mixed_injective in E1; try assumption.
  apply mixed_injective in E2; try assumption.
  apply mixed_injective in E3; try assumption.
  congruence.
Qed.

(** [mix_column] is injective on 16-byte states: two states with the same
    image are equal. *)
Theorem mix_column_injective (s t : list Z) :
  is_block s -> is_block t ->
  AES.mix_column s = AES.mix_column t -> s = t.
Proof. exact (mix_column_inj s t). Qed.

Lemma mix_column_injective_witness : fips_plaintext = fips_plaintext.
Proof.
  apply (mix_column_injective fips_plaintext fips_plaintext);
    [apply blockb_ok; vm_compute; reflexivity
    | apply blockb_ok; vm_compute; reflexivity
    | reflexivity].
Defined.

(** *** Injectivity of the rounds and of [encrypt] *)

Lemma shift_rows_injective (s t : list Z) :
  is_block s -> is_block t ->
  AES.shift_rows s = AES.shift_rows t -> s = t.
Proof.
  intros [Ls Bs] [Lt Bt]. explode s Ls. explode t Lt. invert_bytes.
  rewrite !shift_rows_eq, !bytes_ok by solve_bytes.
  intros [= -> -> -> -> -> -> -> -> -> -> -> -> -> -> -> ->]. reflexivity.
Qed.

Lemma add_round_key_injective (s t k : list Z) :
  is_block s -> is_block t -> is_block k ->
  AES.add_round_key s k = AES.add_round_key t k -> s = t.
Proof.
  intros [Ls Bs] [Lt Bt] [Lk Bk].
  rewrite !add_round_key_ok by assumption. intros [= E].
  rewrite <- (xor_bytes_involutive s k), <- (xor_bytes_involutive t k), E
    by lia.
  reflexivity.
Qed.

Lemma byte_substitution_inj (s t : list Z) :
  is_bytes s -> is_bytes t ->
  AES.byte_substitution s = AES.byte_substitution t -> s = t.
Proof.
  intros Hs Ht.
  rewrite (byte_substitution_ok s Hs), (byte_substitution_ok t Ht).
  intros E. apply Ok_inj in E. apply map_sbox_injective; assumption.
Qed.

Lemma round_inj (s t k : list Z) :
  is_block s -> is_block t -> is_block k ->
  (AES.round s k = AES.round t k -> s = t)
  /\ (AES.final_round s k = AES.final_round t k -> s = t).
Proof.
  intros Hs Ht Hk.
  destruct (byte_substitution_block s Hs) as (s1 & Es1 & Hs1).
  destruct (byte_substitution_block t Ht) as (t1 & Et1 & Ht1).
  destruct (shift_rows_block s1 Hs1) as (s2 & Es2 & Hs2).
  destruct (shift_rows_block t1 Ht1) as (t2 & Et2 & Ht2).
  destruct (mix_column_block s2 Hs2) as (s3 & Es3 & Hs3).
  destruct (mix_column_block t2 Ht2) as (t3 & Et3 & Ht3).
  assert (Back : s2 = t2 -> s = t).
  { intros E2. subst t2.
    assert (E1 : s1 = t1)
      by (apply shift_rows_injective; [assumption..|congruence]).
    subst t1.
    apply byte_substitution_inj; [apply Hs | apply Ht | congruence]. }
  split.
  - unfold AES.round. rewrite Es1, Et1. cbn [bind].
    rewrite Es2, Et2. cbn [bind]. rewrite Es3, Et3. cbn [bind].
    destruct (add_round_key_block s3 k Hs3 Hk) as (s4 & Es4 & _).
    destruct (add_round_key_block t3 k Ht3 Hk) as (t4 & Et4 & _).
    rewrite Es4, Et4. cbn [bind]. intros [= E4]. subst t4.
    apply Back. apply mix_column_inj; [assumption..|].
    assert (E3 : s3 = t3)
      by (apply (add_round_key_injective s3 t3 k); [assumption..|congruence]).
    congruence.
  - unfold AES.final_round. rewrite Es1, Et1. cbn [bind].
    rewrite Es2, Et2. cbn [bind].
    destruct (add_round_key_block s2 k Hs2 Hk) as (s4 & Es4 & _).
    destruct (add_round_key_block t2 k Ht2 Hk) as (t4 & Et4 & _).
    rewrite Es4, Et4. cbn [bind]. intros [= E4]. subst t4.
    apply Back.
    apply (add_round_key_injective s2 t2 k); [assumption..|congruence].
Qed.

(** For a fixed 16-byte round key, [round] and [final_round] return a
    16-byte state on every 16-byte state and are injective in the state. *)
Theorem round_injective (s t k : list Z) :
  is_block s -> is_block t -> is_block k ->
  (exists out, AES.round s k = Ok out /\ is_block out)
  /\ (exists out, AES.final_round s k = Ok out /\ is_block out)
  /\ (AES.round s k = AES.round t k -> s = t)
  /\ (AES.final_round s k = AES.final_round t k -> s = t).
Proof.
  intros Hs Ht Hk.
  split; [apply round_block; assumption|].
  split; [apply final_round_block; assumption|].
  apply round_inj; assumption.
Qed.

Lemma round_injective_witness :
  (exists out, AES.round fips_plaintext fips_key = Ok out /\ is_block out)
  /\ (exists out, AES.final_round fips_plaintext fips_key = Ok out
                  /\ is_block out)
  /\ (AES.round fips_plaintext fips_key = AES.round fips_plaintext fips_key
      -> fips_plaintext = fips_plaintext)
  /\ (AES.final_round fips_plaintext fips_key
      = AES.final_round fips_plaintext fips_key
      -> fips_plaintext = fips_plaintext).
Proof.
  apply (round_injective fips_plaintext fips_plaintext fips_key);
    apply blockb_ok; vm_compute; reflexivity.
Defined.

Lemma main_rounds_inj (self : AES.t) (l : list Z) :
  length (AES.round_keys self) = 11%nat ->
  Forall is_block (AES.round_keys self) ->
  Forall (fun i => 0 <= i <= 10) l ->
  forall s t, is_block s -> is_block t ->
    foldM (fun state i =>
             rk <- getitem (AES.round_keys self) i ;; AES.round state rk)
          l s
    = foldM (fun state i =>
               rk <- getitem (AES.round_keys self) i ;; AES.round state rk)
            l t ->
    s = t.
Proof.
  intros Hn Hb Hl. induction Hl as [|i l Hi Hl IH]; intros s t Hs Ht E.
  - cbn [foldM] in E. apply Ok_inj in E. exact E.
  - cbn [foldM] in E.
    destruct (round_key_lookup self Hn Hb i Hi) as (rk & Erk & Hrk).
    rewrite Erk in E. cbn [bind] in E.
    destruct (round_block s rk Hs Hrk) as (s' & Es & Hs').
    destruct (round_block t rk Ht Hrk) as (t' & Et & Ht').
    rewrite Es, Et in E.
    assert (E' : s' = t') by (apply IH; assumption).
    apply (proj1 (round_inj s t rk Hs Ht Hrk)). congruence.
Qed.

(** Under one key, [encrypt] is injective on 16-byte blocks: two plaintext
    blocks with the same ciphertext are equal. *)
Theorem encrypt_injective
        (fuel : nat) (key : list Z) (self : AES.t) (p q : list Z) :
  is_bytes key -> AES.__init__ fuel key = Some (Ok self) ->
  is_block p -> is_block q ->
  AES.encrypt self p = AES.encrypt self q -> p = q.
Proof.
  intros Hk Hinit Hp Hq.
  destruct (init_inv fuel key self Hk Hinit) as (_ & _ & Hn & Hb & _).
  unfold AES.encrypt.
  destruct (round_key_lookup self Hn Hb 0) as (rk0 & -> & H0); [lia|].
  cbn [bind].
  destruct (add_round_key_block p rk0 Hp H0) as (p0 & Ep0 & Hp0).
  destruct (add_round_key_block q rk0 Hq H0) as (q0 & Eq0 & Hq0).
  rewrite Ep0, Eq0. cbn [bind].
  assert (Hr : Forall (fun i => 0 <= i <= 10) (range 1 10))
    by (apply Forall_forall; intros i Hi; apply In_range in Hi; lia).
  destruct (main_rounds_block self Hn Hb (range 1 10) Hr p0 Hp0)
    as (p9 & Ep9 & Hp9).
  destruct (main_rounds_block self Hn Hb (range 1 10) Hr q0 Hq0)
    as (q9 & Eq9 & Hq9).
  rewrite Ep9, Eq9. cbn [bind].
  destruct (round_key_lookup self Hn Hb 10) as (rk10 & -> & H10); [lia|].
  cbn [bind].
  destruct (final_round_block p9 rk10 Hp9 H10) as (c & Ec & _).
  destruct (final_round_block q9 rk10 Hq9 H10) as (d & Ed & _).
  rewrite Ec, Ed. cbn [bind]. intros E. apply Ok_inj in E. subst d.
  assert (E9 : p9 = q9)
    by (apply (proj2 (round_inj p9 q9 rk10 Hp9 Hq9 H10)); congruence).
  assert (E0 : p0 = q0)
    by (apply (main_rounds_inj self (range 1 10) Hn Hb Hr); congruence).
  apply (add_round_key_injective p q rk0 Hp Hq H0). congruence.
Qed.

Lemma encrypt_injective_witness : fips_plaintext = fips_plaintext.
Proof.
  apply (encrypt_injective enough_fuel fips_key fips_cipher).
  - apply forallb_is_bytes. vm_compute. reflexivity.
  - vm_compute. reflexivity.
  - apply blockb_ok. vm_compute. reflexivity.
  - apply blockb_ok. vm_compute. reflexivity.
  - reflexivity.
Defined.

(** *** Round counts and input lengths at the edges *)

Lemma range_nil (a b : Z) : b <= a -> range a b = [].
Proof.
  intros H. rewrite range_eq.
  replace (Z.to_nat (b - a)) with 0%nat by lia. reflexivity.
Qed.

Lemma seq_from (m : nat) : forall n, seq n m = map (Nat.add n) (seq 0 m).
Proof.
  induction m as [|m IH]; intros n; [reflexivity|].
  cbn [seq map]. rewrite Nat.add_0_r. f_equal.
  rewrite <- (seq_shift m 0), map_map, (IH (S n)).
  apply map_ext. intros k. lia.
Qed.

Lemma range_split (a m b : Z) :
  a <= m <= b -> range a b = range a m ++ range m b.
Proof.
  intros H. rewrite !range_eq.
  replace (Z.to_nat (b - a)) with (Z.to_nat (m - a) + Z.to_nat (b - m))%nat
    by lia.
  rewrite seq_app, map_app. f_equal.
  rewrite (seq_from _ (0 + Z.to_nat (m - a))), map_map.
  apply map_ext. intros k. lia.
Qed.

Lemma range_one (a : Z) : range a (a + 1) = [a].
Proof.
  rewrite range_eq. replace (Z.to_nat (a + 1 - a)) with 1%nat by lia.
  cbn [seq map]. f_equal. lia.
Qed.

Lemma range_cons (a b : Z) : a < b -> range a b = a :: range (a + 1) b.
Proof.
  intros H. rewrite (range_split a (a + 1) b) by lia.
  rewrite range_one. reflexivity.
Qed.

Lemma range_snoc (a b : Z) : a <= b -> range a (b + 1) = range a b ++ [b].
Proof.
  intros H. rewrite (range_split a b (b + 1)) by lia.
  rewrite range_one. reflexivity.
Qed.

Lemma foldM_app {A S} (body : S -> A -> result S) (l1 l2 : list A) (s : S) :
  foldM body (l1 ++ l2) s = (s' <- foldM body l1 s ;; foldM body l2 s').
Proof.
  revert s. induction l1 as [|x l1 IH]; intros s; [reflexivity|].
  cbn [app foldM]. destruct (body s x); [apply IH | reflexivity].
Qed.

(** For every instance, input and round count [n >= 1] other than 9 and 10,
    asking for one more round runs one more main round, with round key [n],
    on the state that [n] rounds return. *)
Theorem partially_encrypt_next_round (self : AES.t) (p : list Z) (n : Z) :
  1 <= n -> n <> 9 -> n <> 10 ->
  AES.partially_encrypt self p (n + 1)
  = (state <- AES.partially_encrypt self p n ;;
     rk <- getitem (AES.round_keys self) n ;;
     AES.round state rk).
Proof.
  intros H1 H9 H10. unfold AES.partially_encrypt.
  replace (n + 1 =? 10) with false by (symmetry; apply Z.eqb_neq; lia).
  replace (n =? 10) with false by (symmetry; apply Z.eqb_neq; lia).
  rewrite range_snoc by lia.
  destruct (getitem (AES.round_keys self) 0) as [rk0|]; [|reflexivity].
  cbn [bind].
  destruct (AES.add_round_key p rk0) as [s0|]; [|reflexivity]. cbn [bind].
  rewrite foldM_app.
  destruct (foldM _ (range 1 n) s0) as [s|]; [|reflexivity].
  cbn [bind foldM].
  destruct (getitem (AES.round_keys self) n) as [rk|]; [|reflexivity].
  cbn [bind]. destruct (AES.round s rk); reflexivity.
Qed.

Lemma partially_encrypt_next_round_witness :
  AES.partially_encrypt fips_cipher fips_plaintext (3 + 1)
  = (state <- AES.partially_encrypt fips_cipher fips_plaintext 3 ;;
     rk <- getitem (AES.round_keys fips_cipher) 3 ;;
     AES.round state rk).
Proof.
  apply (partially_encrypt_next_round fips_cipher fips_plaintext 3); lia.
Defined.

(** From the state that nine requested rounds return (eight main rounds),
    [encrypt] runs one main round with round key 9 and the final round with
    round key 10, while eleven requested rounds run two main rounds with
    round keys 9 and 10 and no final round. *)
Theorem encrypt_from_round_nine (self : AES.t) (p : list Z) :
  AES.encrypt self p
  = (state <- AES.partially_encrypt self p 9 ;;
     rk <- getitem (AES.round_keys self) 9 ;;
     state <- AES.round state rk ;;
     rk <- getitem (AES.round_keys self) 10 ;;
     AES.final_round state rk)
  /\ AES.partially_encrypt self p 11
     = (state <- AES.partially_encrypt self p 9 ;;
        rk <- getitem (AES.round_keys self) 9 ;;
        state <- AES.round state rk ;;
        rk <- getitem (AES.round_keys self) 10 ;;
        AES.round state rk).
Proof.
  unfold AES.encrypt, AES.partially_encrypt.
  change (9 =? 10) with false. change (11 =? 10) with false.
  rewrite (range_split 1 9 10), (range_split 1 9 11) by lia.
  change (range 9 10) with [9]. change (range 9 11) with [9; 10].
  destruct (getitem (AES.round_keys self) 0) as [rk0|];
    [|split; reflexivity].
  cbn [bind].
  destruct (AES.add_round_key p rk0) as [s0|]; [|split; reflexivity].
  cbn [bind]. rewrite !foldM_app.
  destruct (foldM _ (range 1 9) s0) as [s|]; [|split; reflexivity].
  cbn [bind foldM].
  destruct (getitem (AES.round_keys self) 9) as [rk9|]; [|split; reflexivity].
  cbn [bind].
  destruct (AES.round s rk9) as [s9|]; [|split; reflexivity].
  cbn [bind].
  destruct (getitem (AES.round_keys self) 10) as [rk10|];
    [|split; reflexivity].
  cbn [bind]. split.
  - destruct (AES.final_round s9 rk10); reflexivity.
  - destruct (AES.round s9 rk10); reflexivity.
Qed.

Lemma xor_bytes_comm (s k : list Z) : xor_bytes s k = xor_bytes k s.
Proof.
  unfold xor_bytes. revert k.
  induction s as [|a s IH]; intros k; destruct k as [|b k];
    try reflexivity.
  cbn [combine map]. rewrite IH, Z.lxor_comm. reflexivity.
Qed.

(** On byte sequences of any lengths [add_round_key] raises nothing; the
    result is as long as the shorter argument, and the two arguments can be
    exchanged. *)
Theorem add_round_key_lengths (s k : list Z) :
  is_bytes s -> is_bytes k ->
  exists out,
    AES.add_round_key s k = Ok out
    /\ length out = Nat.min (length s) (length k)
    /\ is_bytes out
    /\ AES.add_round_key k s = Ok out.
Proof.
  intros Hs Hk. exists (xor_bytes s k).
  split; [apply add_round_key_ok; assumption|].
  split; [apply xor_bytes_length|].
  split; [apply xor_bytes_is_bytes; assumption|].
  rewrite (xor_bytes_comm s k). apply add_round_key_ok; assumption.
Qed.

Lemma add_round_key_lengths_witness :
  exists out,
    AES.add_round_key (firstn 3 fips_plaintext) fips_key = Ok out
    /\ length out
       = Nat.min (length (firstn 3 fips_plaintext)) (length fips_key)
    /\ is_bytes out
    /\ AES.add_round_key fips_key (firstn 3 fips_plaintext) = Ok out.
Proof.
  apply (add_round_key_lengths (firstn 3 fips_plaintext) fips_key);
    apply forallb_is_bytes; vm_compute; reflexivity.
Defined.

(** With a round count of 1 or less (0 and negative counts included),
    [partially_encrypt] runs no round at all: for a byte sequence of any
    length it returns the input XORed with the key, cut to 16 bytes. *)
Theorem partially_encrypt_no_round
        (fuel : nat) (key : list Z) (self : AES.t) (p : list Z) (n : Z) :
  is_bytes key -> AES.__init__ fuel key = Some (Ok self) ->
  is_bytes p -> n <= 1 ->
  AES.partially_encrypt self p n = Ok (xor_bytes p key)
  /\ length (xor_bytes p key) = Nat.min (length p) 16.
Proof.
  intros Hk Hinit Hp Hn.
  destruct (init_inv fuel key self Hk Hinit) as ([Lk _] & _ & _ & _ & H0).
  split; [|rewrite xor_bytes_length, Lk; reflexivity].
  unfold AES.partially_encrypt. rewrite H0. cbn [bind].
  rewrite (add_round_key_ok p key Hp Hk). cbn [bind].
  rewrite range_nil by lia. cbn [foldM bind].
  replace (n =? 10) with false by (symmetry; apply Z.eqb_neq; lia).
  reflexivity.
Qed.

Lemma partially_encrypt_no_round_witness :
  AES.partially_encrypt fips_cipher [0xff; 0xfe] (-3)
  = Ok (xor_bytes [0xff; 0xfe] fips_key)
  /\ length (xor_bytes [0xff; 0xfe] fips_key)
     = Nat.min (length [0xff; 0xfe]) 16.
Proof.
  apply (partially_encrypt_no_round enough_fuel fips_key).
  - apply forallb_is_bytes. vm_compute. reflexivity.
  - vm_compute. reflexivity.
  - apply forallb_is_bytes. vm_compute. reflexivity.
  - lia.
Defined.

(** A plaintext of fewer than 16 bytes makes [encrypt], and
    [partially_encrypt] with a round count of 2 or more, raise [IndexError]
    (from [shift_rows] in the first round). *)
Theorem encrypt_short_input
        (fuel : nat) (key : list Z) (self : AES.t) (p : list Z) (n : Z) :
  is_bytes key -> AES.__init__ fuel key = Some (Ok self) ->
  is_bytes p -> (length p < 16)%nat -> 2 <= n ->
  AES.encrypt self p = Raise IndexError
  /\ AES.partially_encrypt self p n = Raise IndexError.
Proof.
  intros Hk Hinit Hp Lp Hn.
  destruct (init_inv fuel key self Hk Hinit) as (Hkey & _ & Hl & Hb & H0).
  destruct (round_key_lookup self Hl Hb 1) as (rk1 & E1 & [L1 B1]); [lia|].
  assert (B : is_bytes (xor_bytes p key))
    by (apply xor_bytes_is_bytes; assumption).
  assert (L : (length (map sbox (xor_bytes p key)) < 16)%nat)
    by (rewrite length_map, xor_bytes_length; lia).
  assert (R : AES.round (xor_bytes p key) rk1 = Raise IndexError).
  { unfold AES.round. rewrite (byte_substitution_ok _ B). cbn [bind].
    rewrite (proj1 (short_state_raises _ L)). reflexivity. }
  unfold AES.encrypt, AES.partially_encrypt. rewrite H0. cbn [bind].
  rewrite (add_round_key_ok p key Hp Hk). cbn [bind].
  rewrite (range_cons 1 10), (range_cons 1 n) by lia.
  cbn [foldM]. rewrite E1. cbn [bind]. rewrite R. split; reflexivity.
Qed.

Lemma encrypt_short_input_witness :
  AES.encrypt fips_cipher (firstn 15 fips_plaintext) = Raise IndexError
  /\ AES.partially_encrypt fips_cipher (firstn 15 fips_plaintext) 2
     = Raise IndexError.
Proof.
  apply (encrypt_short_input enough_fuel fips_key).
  - apply forallb_is_bytes. vm_compute. reflexivity.
  - vm_compute. reflexivity.
  - apply forallb_is_bytes. vm_compute. reflexivity.
  - apply Nat.ltb_lt. vm_compute. reflexivity.
  - lia.
Defined.

(** A round count of 12 or more makes [partially_encrypt] raise
    [IndexError] on a 16-byte block: the loop asks for round key 11, and the
    schedule ends at round key 10. *)
Theorem partially_encrypt_too_many_rounds
        (fuel : nat) (key : list Z) (self : AES.t) (p : list Z) (n : Z) :
  is_bytes key -> AES.__init__ fuel key = Some (Ok self) ->
  is_block p -> 12 <= n ->
  AES.partially_encrypt self p n = Raise IndexError.
Proof.
  intros Hk Hinit Hp Hn.
  destruct (init_inv fuel key self Hk Hinit) as (Hkey & _ & Hl & Hb & H0).
  unfold AES.partially_encrypt. rewrite H0. cbn [bind].
  destruct (add_round_key_block p key Hp Hkey) as (s0 & -> & Hs0).
  cbn [bind].
  rewrite (range_split 1 11 n), (range_cons 11 n) by lia.
  rewrite foldM_app.
  assert (Hr : Forall (fun i => 0 <= i <= 10) (range 1 11))
    by (apply Forall_forall; intros i Hi; apply In_range in Hi; lia).
  destruct (main_rounds_block self Hl Hb (range 1 11) Hr s0 Hs0)
    as (s10 & -> & _).
  cbn [bind foldM].
  assert (E : getitem (AES.round_keys self) 11 = Raise IndexError)
    by (unfold getitem, len; rewrite Hl; reflexivity).
  rewrite E. reflexivity.
Qed.

Lemma partially_encrypt_too_many_rounds_witness :
  AES.partially_encrypt fips_cipher fips_plaintext 12 = Raise IndexError.
Proof.
  apply (partially_encrypt_too_many_rounds enough_fuel fips_key).
  - apply forallb_is_bytes. vm_compute. reflexivity.
  - vm_compute. reflexivity.
  - apply blockb_ok. vm_compute. reflexivity.
  - lia.
Defined.

(** *** The key schedule as a recurrence *)

Lemma getitem_value {A} (l : list A) (i : Z) (x d : A) :
  getitem l i = Ok x ->
  x = nth (Z.to_nat (if i <? 0 then i + len l else i)) l d.
Proof.
  unfold getitem.
  destruct ((_ <? 0) || (len l <=? _)); [discriminate|].
  destruct (nth_error l _) as [y|] eqn:E; [|discriminate].
  intros [= <-]. symmetry. apply nth_error_nth, E.
Qed.

Lemma key_expansion_step_word (kc : list (list Z)) (i : Z) :
  Forall is_word kc -> len kc = i -> 4 <= i < 44 ->
  AES.key_expansion_step kc i
  = Ok (kc ++ [schedule_word (nth (Z.to_nat (i - 1)) kc [])
                             (nth (Z.to_nat (i - 4)) kc []) i]).
Proof.
  intros Hkc Hlen Hi. unfold AES.key_expansion_step.
  destruct (getitem_exists kc (-1)) as [word Hw]; [lia|].
  destruct (getitem_exists kc (i - 4)) as [prev Hp]; [lia|].
  pose proof (getitem_value _ _ _ [] Hw) as Vw.
  pose proof (getitem_value _ _ _ [] Hp) as Vp.
  change (-1 <? 0) with true in Vw. cbv iota in Vw.
  replace (-1 + len kc) with (i - 1) in Vw by lia.
  replace (i - 4 <? 0) with false in Vp by (symmetry; apply Z.ltb_ge; lia).
  rewrite <- Vw, <- Vp. clear Vw Vp.
  destruct (getitem_Forall _ _ _ _ Hkc Hw) as [Lw Bw].
  destruct (getitem_Forall _ _ _ _ Hkc Hp) as [Lp Bp].
  rewrite Hw. cbn [bind].
  explode word Lw. explode prev Lp. invert_bytes.
  unfold schedule_word.
  destruct (i mod 4 =? 0).
  - destruct (rcon_lookup (i / 4 - 1)) as (rc & Hrc & Brc).
    { assert (1 <= i / 4) by (apply Z.div_le_lower_bound; lia).
      assert (i / 4 < 11) by (apply Z.div_lt_upper_bound; lia). lia. }
    pose proof (getitem_value _ _ _ 0 Hrc) as Vrc.
    replace (i / 4 - 1 <? 0) with false in Vrc
      by (symmetry; apply Z.ltb_ge;
          assert (1 <= i / 4) by (apply Z.div_le_lower_bound; lia); lia).
    rewrite <- Vrc.
    cbv zeta. rewrite rot_word_eq.
    rewrite mapM_sbox by solve_bytes. cbn [bind map].
    rewrite getitem_hd4. cbn [bind]. rewrite Hrc. cbn [bind].
    rewrite setitem_hd4. cbn [bind]. rewrite Hp. reflexivity.
  - cbn [bind]. rewrite Hp. reflexivity.
Qed.

Lemma scheduled_snoc (kc : list (list Z)) :
  4 <= len kc -> scheduled kc ->
  scheduled (kc ++ [schedule_word (nth (Z.to_nat (len kc - 1)) kc [])
                                  (nth (Z.to_nat (len kc - 4)) kc [])
                                  (len kc)]).
Proof.
  intros H4 Hs j Hj. rewrite len_app in Hj.
  change (len [_]) with 1 in Hj. unfold len in *.
  rewrite (app_nth1 kc _ [] (n := Z.to_nat (j - 1))) by lia.
  rewrite (app_nth1 kc _ [] (n := Z.to_nat (j - 4))) by lia.
  destruct (Z.eq_dec j (Z.of_nat (length kc))) as [->|Hne].
  - rewrite app_nth2 by lia.
    replace (Z.to_nat (Z.of_nat (length kc)) - length kc)%nat with 0%nat
      by lia.
    reflexivity.
  - rewrite app_nth1 by lia. apply Hs. unfold len. lia.
Qed.

Lemma key_expansion_loop_scheduled (fuel : nat) :
  forall kc i r,
    Forall is_word kc -> len kc = i -> 4 <= i <= 44 -> scheduled kc ->
    AES.key_expansion_loop fuel kc i = Some (Ok r) ->
    scheduled r /\ Forall is_word r /\ len r = 44.
Proof.
  induction fuel as [|fuel IH]; intros kc i r Hkc Hlen Hi Hs;
    rewrite key_expansion_loop_eq;
    destruct (Z.ltb_spec (len kc) 44) as [Hlt|Hge];
    try discriminate;
    try (intros [= <-]; split; [exact Hs | split; [exact Hkc | lia]]).
  rewrite key_expansion_step_word by (assumption || lia).
  apply IH.
  - apply Forall_app. split; [exact Hkc|].
    destruct (key_expansion_step_ok kc i Hkc Hlen) as (w & E & Hw); [lia|].
    rewrite key_expansion_step_word in E by (assumption || lia).
    apply Ok_inj, app_inv_head in E. injection E as ->.
    constructor; [exact Hw | constructor].
  - rewrite len_app. change (len [_]) with 1. lia.
  - lia.
  - subst i. apply scheduled_snoc; [lia | exact Hs].
Qed.

Lemma getitem_round_keys {A} (f : Z -> A) (k : Z) :
  0 <= k <= 10 -> getitem (map f (range3 0 44 4)) k = Ok (f (4 * k)).
Proof.
  intros H. rewrite range3_0_44_4.
  assert (C : k = 0 \/ k = 1 \/ k = 2 \/ k = 3 \/ k = 4 \/ k = 5 \/ k = 6
              \/ k = 7 \/ k = 8 \/ k = 9 \/ k = 10) by lia.
  repeat (destruct C as [-> | C]; [reflexivity|]). subst k. reflexivity.
Qed.

Lemma chunk4 {A} (d : A) (n : nat) :
  forall r, (n + 4 <= length r)%nat ->
    firstn 4 (skipn n r)
    = [nth n r d; nth (n + 1) r d; nth (n + 2) r d; nth (n + 3) r d].
Proof.
  induction n as [|n IH]; intros r H.
  - destruct r as [|a [|b [|c [|e r]]]]; cbn [length] in H; try lia.
    reflexivity.
  - destruct r as [|a r]; cbn [length] in H; [lia|].
    cbn [skipn]. rewrite IH by lia. reflexivity.
Qed.

Lemma next_round_key_words (w0 w1 w2 w3 : list Z) (k : Z) :
  is_word w0 -> is_word w1 -> is_word w2 -> is_word w3 ->
  next_round_key (concat [w0; w1; w2; w3]) k
  = schedule_word w3 w0 (4 * k + 4)
    ++ schedule_word (schedule_word w3 w0 (4 * k + 4)) w1 (4 * k + 5)
    ++ schedule_word
         (schedule_word (schedule_word w3 w0 (4 * k + 4)) w1 (4 * k + 5))
         w2 (4 * k + 6)
    ++ schedule_word
         (schedule_word
            (schedule_word (schedule_word w3 w0 (4 * k + 4)) w1 (4 * k + 5))
            w2 (4 * k + 6))
         w3 (4 * k + 7).
Proof.
  intros [L0 _] [L1 _] [L2 _] [L3 _].
  explode w0 L0. explode w1 L1. explode w2 L2. explode w3 L3.
  reflexivity.
Qed.

(** The key schedule is a recurrence on round keys: for a 16-byte key and
    [0 <= k < 10], round key [k + 1] is computed from round key [k] alone.
    Its first word is the first word of round key [k] XORed with the last
    word rotated by one byte, substituted through the S-box and XORed with
    [RCON[k]]; each following word is the word before it XORed with the word
    at the same place in round key [k]. *)
Theorem key_schedule_recurrence
        (fuel : nat) (key : list Z) (rks : list (list Z)) (k : Z) :
  is_block key -> AES.key_expansion fuel key = Some (Ok rks) ->
  0 <= k < 10 ->
  exists rk, getitem rks k = Ok rk
             /\ getitem rks (k + 1) = Ok (next_round_key rk k).
Proof.
  intros [L B] H Hk. explode key L. invert_bytes.
  unfold AES.key_expansion in H. rewrite key_columns_eq in H.
  destruct (AES.key_expansion_loop fuel _ 4) as [[r|e]|] eqn:E;
    [|discriminate H..].
  apply key_expansion_loop_scheduled in E.
  2:{ repeat (apply Forall_cons; [split; [reflexivity | solve_bytes]|]).
      apply Forall_nil. }
  2:{ reflexivity. }
  2:{ lia. }
  2:{ intros j Hj. unfold len in Hj. cbn [length] in Hj. lia. }
  destruct E as (Hs & Hw & Hl).
  cbn [bind] in H. cbv zeta in H.
  destruct (round_keys_ok r Hl Hw) as (Em & _ & _). cbv zeta in Em.
  rewrite Em in H.
  assert (H' := f_equal (fun o => match o with
                                   | Some (Ok l) => l
                                   | _ => []
                                   end) H).
  cbv beta iota in H'. subst rks. clear H.
  assert (Hlen : length r = 44%nat) by (unfold len in Hl; lia).
  exists (concat (firstn 4 (skipn (Z.to_nat (4 * k)) r))).
  rewrite !getitem_round_keys by lia.
  rewrite !slice_inside by lia.
  replace (4 * k + 4 - 4 * k) with 4 by lia.
  replace (4 * (k + 1) + 4 - 4 * (k + 1)) with 4 by lia.
  split; [reflexivity|]. f_equal.
  set (n := Z.to_nat (4 * k)).
  replace (Z.to_nat (4 * (k + 1))) with (n + 4)%nat by lia.
  change (Z.to_nat 4) with 4%nat.
  rewrite !(chunk4 []) by lia.
  assert (W : forall m, (m < 44)%nat -> is_word (nth m r []))
    by (intros m Hm; apply Forall_nth; [exact Hw | lia]).
  rewrite next_round_key_words by (apply W; lia).
  pose proof (Hs (4 * k + 4) ltac:(lia)) as S4.
  pose proof (Hs (4 * k + 5) ltac:(lia)) as S5.
  pose proof (Hs (4 * k + 6) ltac:(lia)) as S6.
  pose proof (Hs (4 * k + 7) ltac:(lia)) as S7.
  replace (Z.to_nat (4 * k + 4)) with (n + 4)%nat in * by lia.
  replace (Z.to_nat (4 * k + 5)) with (n + 4 + 1)%nat in * by lia.
  replace (Z.to_nat (4 * k + 6)) with (n + 4 + 2)%nat in * by lia.
  replace (Z.to_nat (4 * k + 7)) with (n + 4 + 3)%nat in * by lia.
  replace (Z.to_nat (4 * k + 4 - 1)) with (n + 3)%nat in * by lia.
  replace (Z.to_nat (4 * k + 4 - 4)) with n in * by lia.
  replace (Z.to_nat (4 * k + 5 - 1)) with (n + 4)%nat in * by lia.
  replace (Z.to_nat (4 * k + 5 - 4)) with (n + 1)%nat in * by lia.
  replace (Z.to_nat (4 * k + 6 - 1)) with (n + 4 + 1)%nat in * by lia.
  replace (Z.to_nat (4 * k + 6 - 4)) with (n + 2)%nat in * by lia.
  replace (Z.to_nat (4 * k + 7 - 1)) with (n + 4 + 2)%nat in * by lia.
  replace (Z.to_nat (4 * k + 7 - 4)) with (n + 3)%nat in * by lia.
  rewrite S5 in S6. rewrite S6 in S7. rewrite S4 in S5, S6, S7.
  cbn [concat]. rewrite app_nil_r, S4, S5, S6, S7. reflexivity.
Qed.

Lemma key_schedule_recurrence_witness :
  exists rk, getitem (AES.round_keys fips_cipher) 3 = Ok rk
             /\ getitem (AES.round_keys fips_cipher) (3 + 1)
                = Ok (next_round_key rk 3).
Proof.
  apply (key_schedule_recurrence enough_fuel fips_key).
  - apply blockb_ok. vm_compute. reflexivity.
  - vm_compute. reflexivity.
  - lia.
Defined.

(** *** Bounds of [mix_single_column] and of the loop of [key_expansion] *)

(** [mix_single_column] raises [IndexError] on a column of fewer than four
    elements, and on a longer column it returns the four bytes it returns
    on the first four elements. *)
Theorem mix_single_column_bounds (short rest : list Z) (a b c d : Z) :
  (length short < 4)%nat ->
  AES.mix_single_column short = Raise IndexError
  /\ AES.mix_single_column (a :: b :: c :: d :: rest)
     = AES.mix_single_column [a; b; c; d]
  /\ exists b0 b1 b2 b3,
       AES.mix_single_column [a; b; c; d] = Ok [b0; b1; b2; b3].
Proof.
  intros L. split; [|split].
  - do 4 (destruct short as [|? short]; [reflexivity|]).
    cbn [length] in L. lia.
  - unfold AES.mix_single_column. cbv zeta.
    rewrite !(getitem_nonneg (a :: b :: c :: d :: rest) 0 a),
            !(getitem_nonneg (a :: b :: c :: d :: rest) 1 b),
            !(getitem_nonneg (a :: b :: c :: d :: rest) 2 c),
            !(getitem_nonneg (a :: b :: c :: d :: rest) 3 d)
      by (lia || reflexivity).
    reflexivity.
  - do 4 eexists. reflexivity.
Qed.

Lemma mix_single_column_bounds_witness :
  AES.mix_single_column [0xdb; 0x13; 0x53] = Raise IndexError
  /\ AES.mix_single_column (0xdb :: 0x13 :: 0x53 :: 0x45 :: [0x01; 0x02])
     = AES.mix_single_column [0xdb; 0x13; 0x53; 0x45]
  /\ exists b0 b1 b2 b3,
       AES.mix_single_column [0xdb; 0x13; 0x53; 0x45] = Ok [b0; b1; b2; b3].
Proof.
  apply (mix_single_column_bounds [0xdb; 0x13; 0x53]).
  apply Nat.ltb_lt. vm_compute. reflexivity.
Defined.

(** For a 16-byte key the loop of [key_expansion] ends after exactly 40
    iterations: a run allowed fewer is cut short, and a run allowed 40 or
    more returns the same schedule as a run allowed 40. *)
Theorem key_expansion_iterations (few enough : nat) (key : list Z) :
  is_block key -> (few < 40)%nat -> (40 <= enough)%nat ->
  AES.key_expansion few key = None
  /\ exists rks, AES.key_expansion 40 key = Some (Ok rks)
                 /\ AES.key_expansion enough key = Some (Ok rks).
Proof.
  intros Hk Hfew Hf.
  destruct (key_expansion_ok few key Hk) as [_ Hno].
  destruct (key_expansion_ok 40 key Hk) as [Hyes40 _].
  split; [exact (Hno Hfew)|].
  destruct (Hyes40 (Nat.le_refl 40)) as (rks & E & _).
  exists rks. split; [exact E|].
  unfold AES.key_expansion in *.
  destruct (AES.key_expansion_loop 40 _ 4) as [r|] eqn:E40; [|discriminate E].
  rewrite (key_expansion_loop_mono 40 enough _ _ r Hf E40). exact E.
Qed.

Lemma key_expansion_iterations_witness :
  AES.key_expansion 39 fips_key = None
  /\ exists rks, AES.key_expansion 40 fips_key = Some (Ok rks)
                 /\ AES.key_expansion 41 fips_key = Some (Ok rks).
Proof.
  apply (key_expansion_iterations 39 41 fips_key).
  - apply blockb_ok. vm_compute. reflexivity.
  - lia.
  - lia.
Defined.
